(** * uvtools.dspec: Fourier-domain filtering of visibilities

    A shallow embedding of [uvtools/dspec.py] and the properties its
    specification states about it.

    Modelling conventions.
    - [calc_width] is given twice.  Module [Binary64] is the function as it
      runs on Python floats: IEEE 754 binary64 values, every operation
      rounded to nearest (ties to even), with the exceptions that Python
      raises on a zero divisor, on NaN and on infinities.  The top-level
      [calc_width] is the same function in exact rational arithmetic ([Q]),
      without rounding error, overflow, infinities or NaN; the statements
      about monotonicity, about the mask and about the filter use it.
      [round] is the Python 3 built-in (round half to even), which is what
      the repository's tests of [wedge_width] expect.
    - Python exceptions are an explicit error result ([result]).
    - numpy arrays are a shape together with the row-major list of their
      elements; elements are complex numbers with rational parts (every
      array is taken to be of complex dtype, as in the repository's 2-D
      tests: the cast that numpy applies when a complex row is stored into a
      real array is not modelled).
    - The routines of [aipy] and [numpy.fft] that the module calls are the
      fields of the class [Backend]; every statement about the filter holds
      for all backends. *)

From Stdlib Require Import ZArith QArith Qround Qminmax Lqa String.
From Stdlib Require Import Floats.SpecFloat.
From stdpp Require Import base option list gmap strings.

Local Open Scope Z_scope.

(** ** Python exceptions and results *)

Module Py.

Inductive exn : Type :=
  | ValueError
  | IndexError
  | TypeError
  | ZeroDivisionError
  | OverflowError
  | KeyError.

Inductive result (A : Type) : Type :=
  | Ok (a : A)
  | Raise (e : exn).
Global Arguments Ok {A} a.
Global Arguments Raise {A} e.

Global Instance result_ret : MRet result := fun A a => Ok a.
Global Instance result_bind : MBind result := fun A B f m =>
  match m with
  | Ok a => f a
  | Raise e => Raise e
  end.

(** [round(x)] on a float, Python 3: the nearest integer, ties to even. *)
Definition py_round (x : Q) : Z :=
  let f := Qfloor x in
  match (x - inject_Z f ?= 1 # 2)%Q with
  | Lt => f
  | Gt => f + 1
  | Eq => if Z.even f then f else f + 1
  end.

(** A [filter_size] argument as the caller may pass it: a float, or a
    tuple/list of floats. *)
Inductive filter_arg : Type :=
  | Scalar (q : Q)
  | Sequence (qs : list Q).

(** [1. / d] on floats. *)
Definition float_recip (d : Q) : result Q :=
  if Qeq_bool d 0 then Raise ZeroDivisionError else Ok (1 / d)%Q.

(** [a / b] where [b] is a float: a tuple or list on the left has no
    [__truediv__]. *)
Definition truediv (a : filter_arg) (b : Q) : result Q :=
  match a with
  | Scalar q => if Qeq_bool b 0 then Raise ZeroDivisionError else Ok (q / b)%Q
  | Sequence _ => Raise TypeError
  end.

(** [np.max([a, b])]. *)
Definition np_max (l : list Q) : result Q :=
  match l with
  | [] => Raise ValueError
  | x :: l' => Ok (foldl (fun m y => if Qlt_le_dec m y then y else m) x l')
  end.

(** The bounds [start, stop) that a slice [a[u:l]] denotes on a sequence of
    length [n]: negative indices count from the end, and both are clipped. *)
Definition slice_bound (n i : Z) : Z :=
  if i <? 0 then Z.max (i + n) 0 else Z.min i n.

End Py.
Export Py.

(** ** Bin-index arithmetic *)

Definition calc_width (filter_size : filter_arg) (real_delta : Q) (nsamples : Z)
  : result (Z * Z) :=
  bin_width ← float_recip (real_delta * inject_Z nsamples);
  q ← truediv filter_size bin_width;
  let w := py_round q in
  let '(uthresh, lthresh) := (w + 1, - w) in
  let lthresh := if lthresh =? 0 then nsamples else lthresh in
  mret (uthresh, lthresh).

Definition wedge_width (bl_len sdf : Q) (nchan : Z) (standoff horizon : Q)
  : result (Z * Z) :=
  let bl_dly := (horizon * bl_len + standoff)%Q in
  calc_width (Scalar bl_dly) sdf nchan.

(** ** Bin-index arithmetic on Python floats *)

Module Binary64.

(** A Python float is an IEEE 754 binary64 value: 53 bits of precision,
    exponents below 1024.  [filter_size] and [real_delta] are Python floats
    and [nsamples] is a Python [int], as in the repository's tests of
    [wedge_width]; numpy scalars, whose division does not raise on a zero
    divisor, are not covered. *)
Definition prec : Z := 53.
Definition emax : Z := 1024.

Definition mul : spec_float -> spec_float -> spec_float := SFmul prec emax.
Definition div : spec_float -> spec_float -> spec_float := SFdiv prec emax.

(** The literal [1.]. *)
Definition one : spec_float := SFone prec emax.

Definition is_zero (x : spec_float) : bool :=
  match x with
  | S754_zero _ => true
  | _ => false
  end.

Definition is_finite (x : spec_float) : bool :=
  match x with
  | S754_zero _ | S754_finite _ _ _ => true
  | _ => false
  end.

(** The nearest float to an integer, which is what an [int] operand of a
    float operation is converted to. *)
Definition of_int (n : Z) : spec_float := binary_normalize prec emax n 0 false.

(** The conversion raises [OverflowError] for an [int] beyond the range of
    the floats. *)
Definition int_to_float (n : Z) : result spec_float :=
  let x := of_int n in
  if is_finite x then Ok x else Raise OverflowError.

(** The float that a decimal literal [p/q] denotes (for integers [p], [q]
    that are floats themselves): the nearest float to the quotient. *)
Definition decimal (p q : Z) : spec_float := div (of_int p) (of_int q).

(** The number that a finite float denotes. *)
Definition to_Q (x : spec_float) : Q :=
  match x with
  | S754_finite s m e =>
      let v := (inject_Z (Z.pos m) * 2 ^ e)%Q in
      if s then (- v)%Q else v
  | _ => 0%Q
  end.

(** [a / b] on floats raises [ZeroDivisionError] for a zero divisor of
    either sign, whatever [a] is. *)
Definition float_truediv (a b : spec_float) : result spec_float :=
  if is_zero b then Raise ZeroDivisionError else Ok (div a b).

(** A [filter_size] argument as the caller may pass it: a float, or a
    tuple/list of floats. *)
Inductive filter_arg : Type :=
  | Scalar (x : spec_float)
  | Sequence (xs : list spec_float).

(** [a / b] where [b] is a float: a tuple or list on the left has no
    [__truediv__]. *)
Definition truediv (a : filter_arg) (b : spec_float) : result spec_float :=
  match a with
  | Scalar x => float_truediv x b
  | Sequence _ => Raise TypeError
  end.

(** [int(round(x))] on a float, Python 3: the nearest integer to the number
    the float denotes, ties to even; NaN raises [ValueError] and an infinity
    raises [OverflowError]. *)
Definition round (x : spec_float) : result Z :=
  match x with
  | S754_nan => Raise ValueError
  | S754_infinity _ => Raise OverflowError
  | _ => Ok (py_round (to_Q x))
  end.

Definition calc_width (filter_size : filter_arg) (real_delta : spec_float)
    (nsamples : Z) : result (Z * Z) :=
  ns ← int_to_float nsamples;
  bin_width ← float_truediv one (mul real_delta ns);
  q ← truediv filter_size bin_width;
  w ← round q;
  let '(uthresh, lthresh) := (w + 1, - w) in
  let lthresh := if lthresh =? 0 then nsamples else lthresh in
  mret (uthresh, lthresh).

Definition wedge_width (bl_len sdf : spec_float) (nchan : Z)
    (standoff horizon : spec_float) : result (Z * Z) :=
  let bl_dly := SFadd prec emax (mul horizon bl_len) standoff in
  calc_width (Scalar bl_dly) sdf nchan.

(** The three floats that [calc_width] computes on the way: the product
    [real_delta * nsamples], the bin width and the quotient that is
    rounded. *)
Definition product (real_delta : spec_float) (nsamples : Z) : spec_float :=
  mul real_delta (of_int nsamples).

Definition bin_width (real_delta : spec_float) (nsamples : Z) : spec_float :=
  div one (product real_delta nsamples).

Definition quotient (filter_size real_delta : spec_float) (nsamples : Z)
  : spec_float :=
  div filter_size (bin_width real_delta nsamples).

End Binary64.

(** ** Complex samples and numpy arrays *)

Module Np.

Record complex : Type := Cx { re : Q; im : Q }.

Definition C0 : complex := Cx 0 0.
Definition C1 : complex := Cx 1 0.
Definition Creal (x : Q) : complex := Cx x 0.
Definition Cadd (a b : complex) : complex :=
  Cx (re a + re b) (im a + im b).
Definition Csub (a b : complex) : complex :=
  Cx (re a - re b) (im a - im b).
Definition Cmul (a b : complex) : complex :=
  Cx (re a * re b - im a * im b) (re a * im b + im a * re b).

(** [z < s] for a complex sample and a float, as numpy orders complex
    numbers: by real part, then by imaginary part. *)
Definition Clt (z : complex) (s : Q) : bool :=
  match (re z ?= s)%Q with
  | Lt => true
  | Eq => match (im z ?= 0)%Q with Lt => true | _ => false end
  | Gt => false
  end.

Global Instance complex_inhabited : Inhabited complex := populate C0.

Record ndarray : Type := Nd { shape : list nat; flat : list complex }.

Definition size (s : list nat) : nat := foldr Nat.mul 1%nat s.
Definition ndim (a : ndarray) : nat := length (shape a).
Definition wf (a : ndarray) : Prop := length (flat a) = size (shape a).

Definition scalar (z : complex) : ndarray := Nd [] [z].
Definition vec (l : list complex) : ndarray := Nd [length l] l.
Definition zeros (s : list nat) : ndarray := Nd s (replicate (size s) C0).

(** [a.shape[-1]] and [a.shape[0]]. *)
Definition shape_last (a : ndarray) : result nat :=
  match last (shape a) with
  | Some n => Ok n
  | None => Raise IndexError
  end.
Definition shape_first (a : ndarray) : result nat :=
  match shape a with
  | n :: _ => Ok n
  | [] => Raise IndexError
  end.

(** *** Broadcasting *)

(** Shapes are aligned on their last axis by prepending axes of length 1. *)
Definition pad (n : nat) (s : list nat) : list nat :=
  replicate (n - length s) 1%nat ++ s.

Fixpoint bshape (s1 s2 : list nat) : option (list nat) :=
  match s1, s2 with
  | [], [] => Some []
  | d1 :: s1', d2 :: s2' =>
      r ← bshape s1' s2';
      if decide (d1 = d2) then Some (d1 :: r)
      else if decide (d1 = 1%nat) then Some (d2 :: r)
      else if decide (d2 = 1%nat) then Some (d1 :: r)
      else None
  | _, _ => None
  end.

Definition broadcast_shapes (s1 s2 : list nat) : option (list nat) :=
  let n := (length s1 `max` length s2)%nat in
  bshape (pad n s1) (pad n s2).

(** The row-major offsets, in an operand of (padded) shape [sa], of the
    elements that fill a result of shape [s]; an axis of length 1 of the
    operand is repeated along the result's axis. *)
Fixpoint src_offsets (sa s : list nat) (base : nat) : list nat :=
  match sa, s with
  | [], [] => [base]
  | da :: sa', d :: s' =>
      i ← seq 0 d;
      src_offsets sa' s' (base * da + (if decide (da = 1%nat) then 0 else i))
  | _, _ => []
  end.

Definition gather (a : ndarray) (s : list nat) : list complex :=
  (fun k => flat a !!! k) <$> src_offsets (pad (length s) (shape a)) s 0.

Definition broadcast2 (f : complex -> complex -> complex) (a b : ndarray)
  : result ndarray :=
  match broadcast_shapes (shape a) (shape b) with
  | Some s => Ok (Nd s (zip_with f (gather a s) (gather b s)))
  | None => Raise ValueError
  end.

Definition nd_mul : ndarray -> ndarray -> result ndarray := broadcast2 Cmul.
Definition nd_sub : ndarray -> ndarray -> result ndarray := broadcast2 Csub.

(** *** Indexing *)

(** Row [i] of a row-major buffer whose rows have [n] elements. *)
Definition row (n i : nat) (l : list complex) : list complex :=
  take n (drop (i * n) l).

(** [a[i]]. *)
Definition index0 (a : ndarray) (i : nat) : result ndarray :=
  match shape a with
  | [] => Raise IndexError
  | d :: s' =>
      if decide (i < d)%nat then Ok (Nd s' (row (size s') i (flat a)))
      else Raise IndexError
  end.

(** [a[i, j]]. *)
Definition index2 (a : ndarray) (i j : nat) : result ndarray :=
  x ← index0 a i; index0 x j.

(** The truth value of [x < s]: defined for an array of one element only
    (an empty array is refused as well, as numpy does from 2.2 on). *)
Definition lt_scalar (x : ndarray) (s : Q) : result bool :=
  match flat x with
  | [z] => Ok (Clt z s)
  | _ => Raise ValueError
  end.

(** In an assignment the value may carry extra leading axes of length 1. *)
Fixpoint strip_ones (n : nat) (s : list nat) : list nat :=
  match s with
  | 1%nat :: s' => if decide (n < length s)%nat then strip_ones n s' else s
  | _ => s
  end.

Definition broadcast_to (v : ndarray) (s : list nat) : option (list complex) :=
  let sv := strip_ones (length s) (shape v) in
  if decide (broadcast_shapes sv s = Some s)
  then Some (gather (Nd sv (flat v)) s)
  else None.

(** [a[i] = v]. *)
Definition setitem0 (a : ndarray) (i : nat) (v : ndarray) : result ndarray :=
  match shape a with
  | [] => Raise IndexError
  | d :: s' =>
      if decide (i < d)%nat then
        match broadcast_to v s' with
        | Some fl =>
            let n := size s' in
            Ok (Nd (shape a) (sublist_alter (fun _ => fl) (i * n) n (flat a)))
        | None => Raise ValueError
        end
      else Raise IndexError
  end.

(** *** Transforms along the last axis *)

(** [f] applied to every 1-D slice along the last axis, as [np.fft.fft] and
    [np.fft.ifft] do with [axis=-1].  A 0-d array has no [shape[-1]]
    ([IndexError]), and a transform of zero points is refused
    ([ValueError]). *)
Definition lastaxis (f : list complex -> list complex) (a : ndarray)
  : result ndarray :=
  match last (shape a) with
  | None => Raise IndexError
  | Some O => Raise ValueError
  | Some n =>
      let nrows := size (removelast (shape a)) in
      Ok (Nd (shape a) (mjoin (f <$> reshape (replicate nrows n) (flat a))))
  end.

(** [area = np.ones(n); area[u:l] = 0]. *)
Definition set_slice (u l : Z) (v : Z) (area : list Z) : list Z :=
  let n := Z.of_nat (length area) in
  let start := slice_bound n u in
  let stop := slice_bound n l in
  imap (fun k x => if (start <=? Z.of_nat k) && (Z.of_nat k <? stop) then v else x)
       area.

End Np.
Export Np.

(** ** Python values, dictionaries *)

Inductive pyval : Type :=
  | PyBool (b : bool)
  | PyInt (z : Z)
  | PyFloat (q : Q)
  | PyStr (s : string)
  | PyArray (a : ndarray).

Abbreviation dict := (gmap string pyval).

(** [del d[k]]. *)
Definition dict_del (k : string) (d : dict) : result dict :=
  match d !! k with
  | Some _ => Ok (delete k d)
  | None => Raise KeyError
  end.

(** The third component of a filter result: one dictionary for 1-D input, a
    list of dictionaries for 2-D input. *)
Inductive info : Type :=
  | InfoDict (d : dict)
  | InfoList (l : list dict).

(** [for i in l: state = body(i, state)], stopping at the first exception. *)
Fixpoint for_each {S : Type} (body : nat -> S -> result S) (l : list nat) (s : S)
  : result S :=
  match l with
  | [] => Ok s
  | i :: l' => s' ← body i s; for_each body l' s'
  end.

(** ** The external routines *)

(** [aipy.dsp.gen_window(n, window=name, **kwargs)], [np.fft.fft] and
    [np.fft.ifft] on one 1-D slice, and
    [aipy.deconv.clean(im, ker, area=, tol=, stop_if_div=, maxiter=, gain=)].
    A window is whatever array the generator returns: for ['none'] aipy
    returns the 0-d constant 1, for the tapers a 1-D array of [n] reals. *)
Class Backend : Type := {
  gen_window : nat -> string -> dict -> result ndarray;
  fft : list complex -> list complex;
  ifft : list complex -> list complex;
  clean : ndarray -> ndarray -> list Z -> Q -> bool -> Z -> Q
          -> result (ndarray * dict);
}.

(** ** The iterative filter *)

Section Filter.
Context `{Backend}.

(** The body of the loop over the rows of 2-D input. *)
Definition filter_row (_d _w : ndarray) (area : list Z) (tol skip_wgt : Q)
    (maxiter : Z) (gain : Q) (i : nat) (st : ndarray * list dict)
  : result (ndarray * list dict) :=
  let '(d_mdl, info) := st in
  w0 ← index2 _w i 0;
  skip ← lt_scalar w0 skip_wgt;
  if skip : bool then
    d_mdl ← setitem0 d_mdl i (scalar C0);
    mret (d_mdl, info ++ [{[ "skipped" := PyBool true ]}])
  else
    di ← index0 _d i;
    wi ← index0 _w i;
    '(_d_cl, info_here) ← clean di wi area tol false maxiter gain;
    m ← lastaxis fft _d_cl;
    d_mdl ← setitem0 d_mdl i m;
    info_here ← dict_del "res" info_here;
    mret (d_mdl, info ++ [info_here]).

Definition high_pass_fourier_filter (data wgts : ndarray)
    (filter_size : filter_arg) (real_delta : Q) (tol : Q) (window : string)
    (skip_wgt : Q) (maxiter : Z) (gain : Q) (win_kwargs : dict)
  : result (ndarray * ndarray * info) :=
  nchan ← shape_last data;
  window ← gen_window nchan window win_kwargs;
  dw ← nd_mul data wgts;
  dww ← nd_mul dw window;
  _d ← lastaxis ifft dww;
  ww ← nd_mul wgts window;
  _w ← lastaxis ifft ww;
  '(uthresh, lthresh) ← calc_width filter_size real_delta (Z.of_nat nchan);
  let area := set_slice uthresh lthresh 0 (replicate nchan 1) in
  '(d_mdl, info) ←
    (if decide (ndim data = 1%nat) then
       '(_d_cl, info) ← clean _d _w area tol false maxiter gain;
       d_mdl ← lastaxis fft _d_cl;
       info ← dict_del "res" info;
       mret (d_mdl, InfoDict info)
     else if decide (ndim data = 2%nat) then
       nrows ← shape_first data;
       '(d_mdl, info) ←
         for_each (filter_row _d _w area tol skip_wgt maxiter gain)
                  (seq 0 nrows) (zeros (shape data), []);
       mret (d_mdl, InfoList info)
     else Raise ValueError);
  d_res ← nd_sub data d_mdl;
  mret (d_mdl, d_res, info).

Definition delay_filter (data wgts : ndarray) (bl_len sdf : Q)
    (standoff horizon min_dly : Q) (tol : Q) (window : string)
    (skip_wgt : Q) (maxiter : Z) (gain : Q) (win_kwargs : dict)
  : result (ndarray * ndarray * info) :=
  let bl_dly := (horizon * bl_len + standoff)%Q in
  bl_dly ← np_max [bl_dly; min_dly];
  high_pass_fourier_filter data wgts (Scalar bl_dly) sdf tol window
                           skip_wgt maxiter gain win_kwargs.

End Filter.

(** ** The linear suppression operator *)

Module Linear.

Definition identity (n : nat) : list (list complex) :=
  (fun i => (fun j => if decide (i = j) then C1 else C0) <$> seq 0 n) <$> seq 0 n.

Definition Csum (l : list complex) : complex := foldr Cadd C0 l.

Section Sinc.
(** [np.sinc], and the number of periods summed in each direction when the
    kernel is wrapped. *)
Variable sinc : Q -> Q.
Variable nwrap : nat.

Definition kernel (sample_spacing width : Q) (d : Z) : Q :=
  sinc (inject_Z d * sample_spacing * 2 * width)%Q.

Definition wrapped_kernel (n : nat) (sample_spacing width : Q) (d : Z) : Q :=
  foldr Qplus 0%Q
    ((fun m => kernel sample_spacing width
                 (d - Z.of_nat n * (Z.of_nat m - Z.of_nat nwrap)))
       <$> seq 0 (2 * nwrap + 1)).

Definition region_term (n : nat) (sample_spacing : Q)
    (no_regularization wrap : bool) (i j : nat) (region : Q * Q * Q) : complex :=
  let '(_, width, factor) := region in
  let scale := if no_regularization then factor else (1 / factor)%Q in
  let d := Z.of_nat i - Z.of_nat j in
  let k := if wrap then wrapped_kernel n sample_spacing width d
           else kernel sample_spacing width d in
  Creal (scale * k).

(** Modelled from the spec: [sinc_downweight_mat_inv] is not among the
    sources; the spec gives it as the identity plus, for every region, the
    (inverted, unless [no_regularization]) factor times
    [sinc((i-j) * sample_spacing * 2 * width)], the kernel being summed over
    the periodic shifts of the index difference when [wrap] is set. *)
Definition sinc_downweight_mat_inv (n : nat) (sample_spacing : Q)
    (filter_centers filter_widths filter_factors : list Q)
    (no_regularization wrap : bool) : list (list complex) :=
  let regions := zip (zip filter_centers filter_widths) filter_factors in
  imap (fun i r =>
    imap (fun j e =>
      Cadd e (Csum (region_term n sample_spacing no_regularization wrap i j
                      <$> regions))) r)
    (identity n).

End Sinc.
End Linear.

(** ** A backend for evaluating the filter on concrete inputs *)

Module Reference.

Definition Cred (z : complex) : complex := Cx (Qred (re z)) (Qred (im z)).
Definition Cconj (z : complex) : complex := Cx (re z) (- im z).
Definition Cscale (q : Q) (z : complex) : complex := Cx (q * re z) (q * im z).
Fixpoint Cpow (w : complex) (k : nat) : complex :=
  match k with
  | O => C1
  | S k' => Cmul w (Cpow w k')
  end.

(** [exp(-2 pi i / n)] where it is a Gaussian rational: n = 1, 2, 4. *)
Definition root (n : nat) : complex :=
  match n with
  | 2%nat => Cx (-1) 0
  | 4%nat => Cx 0 (-1)
  | _ => C1
  end.

Definition dft (w : complex) (xs : list complex) : list complex :=
  (fun k => Linear.Csum (imap (fun j x => Cmul x (Cpow w (j * k))) xs))
    <$> seq 0 (length xs).

(** The discrete Fourier transform and its inverse, exact for the lengths
    1, 2 and 4. *)
Definition fft_small (xs : list complex) : list complex :=
  Cred <$> dft (root (length xs)) xs.
Definition ifft_small (xs : list complex) : list complex :=
  (fun z => Cred (Cscale (1 # Pos.of_nat (length xs)) z))
    <$> dft (Cconj (root (length xs))) xs.

(** The window ['none'] only. *)
Definition gen_window_none (n : nat) (name : string) (kwargs : dict)
  : result ndarray :=
  if decide (name = "none") then Ok (scalar C1) else Raise KeyError.

(** CLEAN stopped before its first iteration: an empty model, and the
    image as the residual. *)
Definition clean_no_iter (im ker : ndarray) (area : list Z) (tol : Q)
    (stop_if_div : bool) (maxiter : Z) (gain : Q) : result (ndarray * dict) :=
  Ok (zeros (shape im),
      {[ "res" := PyArray im; "iter" := PyInt 0; "tol" := PyFloat tol ]}).

Definition backend : Backend :=
  {| gen_window := gen_window_none;
     fft := fft_small;
     ifft := ifft_small;
     clean := clean_no_iter |}.

(** A stand-in for CLEAN whose model is not empty: the components of the
    image in the bins that the mask keeps, which is what CLEAN converges to
    when the kernel is a delta. *)
Definition clean_in_area (im ker : ndarray) (area : list Z) (tol : Q)
    (stop_if_div : bool) (maxiter : Z) (gain : Q) : result (ndarray * dict) :=
  let mdl := imap (fun k z => match area !! k with
                              | Some 0 | None => C0
                              | Some _ => z
                              end) (flat im) in
  Ok (Nd (shape im) mdl,
      {[ "res" := PyArray (Nd (shape im) (zip_with Csub (flat im) mdl));
         "iter" := PyInt 1; "tol" := PyFloat tol ]}).

Definition backend_in_area : Backend :=
  {| gen_window := gen_window_none;
     fft := fft_small;
     ifft := ifft_small;
     clean := clean_in_area |}.

(** Inputs in the manner of the repository's tests, on four channels:
    constant data, and weights that are flagged (in the first row, for 2-D
    input) except for the last channel. *)
Definition reals (l : list Q) : list complex := Creal <$> l.
Definition ones_1x4 : ndarray := Nd [4]%nat (reals [1; 1; 1; 1]%Q).
Definition flagged_1x4 : ndarray := Nd [4]%nat (reals [0; 0; 0; 1]%Q).
Definition ones_2x4 : ndarray := Nd [2; 4]%nat (reals [1; 1; 1; 1; 1; 1; 1; 1]%Q).
Definition flagged_2x4 : ndarray :=
  Nd [2; 4]%nat (reals [0; 0; 0; 1; 1; 1; 1; 1]%Q).
Definition ramp_3x4 : ndarray :=
  Nd [3; 4]%nat (reals [1; 2; 3; 4; 1; 1; 1; 1; 5; 6; 7; 8]%Q).
Definition flagged_3x4 : ndarray :=
  Nd [3; 4]%nat (reals [1; 0; 1; 0; 1; 1; 1; 1; 0; 0; 0; 0]%Q).

End Reference.

(** ** Notions used to state the properties *)

(** A window is a 0-d constant or a 1-D taper of [n] samples. *)
Definition window_like (n : nat) (win : ndarray) : Prop :=
  wf win /\ (shape win = [] \/ shape win = [n]).

(** What the external routines are known to do with shapes: a window is
    window-like, the transforms keep the number of points, and the CLEAN
    model has the shape of the image. *)
Class BackendLaws `{Backend} : Prop := {
  gen_window_like : forall n name kwargs win,
    gen_window n name kwargs = Ok win -> window_like n win;
  fft_length : forall l, length (fft l) = length l;
  ifft_length : forall l, length (ifft l) = length l;
  clean_shape : forall im ker area tol sd mi g mdl inf,
    clean im ker area tol sd mi g = Ok (mdl, inf) ->
    shape mdl = shape im /\ (wf im -> wf mdl);
}.

(** CLEAN returns for every image, and its metadata has the entry ['res']
    that the filter deletes. *)
Definition clean_total `{Backend} : Prop :=
  forall im ker area tol sd mi g,
    exists mdl inf, clean im ker area tol sd mi g = Ok (mdl, inf) /\
                    is_Some (inf !! "res").

Section RowFunction.
Context `{Backend}.

(** The model row and the metadata that the loop body produces for one row,
    as a function of [_d[i]] and [_w[i]] (given as the results of the two
    indexing operations) and of the scalar parameters. *)
Definition row_outcome (di wi : result ndarray) (area : list Z)
    (tol skip_wgt : Q) (maxiter : Z) (gain : Q) (n : nat)
  : result (list complex * dict) :=
  w0 ← (wi ≫= fun x => index0 x 0);
  skip ← lt_scalar w0 skip_wgt;
  if skip : bool then Ok (replicate n C0, {[ "skipped" := PyBool true ]})
  else
    di ← di;
    wi ← wi;
    '(_d_cl, info_here) ← clean di wi area tol false maxiter gain;
    m ← lastaxis fft _d_cl;
    fl ← from_option Ok (Raise ValueError) (broadcast_to m [n]);
    info_here ← dict_del "res" info_here;
    Ok (fl, info_here).

(** One row filtered on its own: [drow] and [wrow] are row [i] of the data
    and of the weights, [win] is the window and [area] the mask. *)
Definition filter_one_row (drow wrow : list complex) (win : ndarray)
    (area : list Z) (tol skip_wgt : Q) (maxiter : Z) (gain : Q)
  : result (list complex * dict) :=
  let n := length drow in
  let taper := gather win [n] in
  row_outcome
    (Ok (Nd [n] (ifft (zip_with Cmul (zip_with Cmul drow wrow) taper))))
    (Ok (Nd [n] (ifft (zip_with Cmul wrow taper))))
    area tol skip_wgt maxiter gain n.

(** [_w], the inverse transform of the windowed weights, and the test
    [_w[i, 0] < skip_wgt] on its first reciprocal bin. *)
Definition weight_spectrum (wgts : ndarray) (nchan : nat) (window : string)
    (win_kwargs : dict) : result ndarray :=
  win ← gen_window nchan window win_kwargs;
  ww ← nd_mul wgts win;
  lastaxis ifft ww.

Definition low_weight (wgts : ndarray) (nchan : nat) (window : string)
    (win_kwargs : dict) (skip_wgt : Q) (i : nat) : result bool :=
  _w ← weight_spectrum wgts nchan window win_kwargs;
  w0 ← index2 _w i 0;
  lt_scalar w0 skip_wgt.

(** [_d], the inverse transform of the weighted and windowed data. *)
Definition data_spectrum (data wgts : ndarray) (nchan : nat) (window : string)
    (win_kwargs : dict) : result ndarray :=
  win ← gen_window nchan window win_kwargs;
  dw ← nd_mul data wgts;
  dww ← nd_mul dw win;
  lastaxis ifft dww.

End RowFunction.

(** The error contract as the specification words it: the filter fails with
    [ValueError] whenever the data is not 1-D or 2-D or the weights do not
    have the shape of the data, and it fails in no other case. *)
Definition invalid_input (data wgts : ndarray) : Prop :=
  (ndim data <> 1%nat /\ ndim data <> 2%nat) \/ shape data <> shape wgts.

Definition error_contract `{Backend} : Prop :=
  forall (data wgts : ndarray) (filter_size : filter_arg) (real_delta tol : Q)
         (window : string) (skip_wgt : Q) (maxiter : Z) (gain : Q)
         (win_kwargs : dict),
    let r := high_pass_fourier_filter data wgts filter_size real_delta tol
               window skip_wgt maxiter gain win_kwargs in
    (invalid_input data wgts -> r = Raise ValueError) /\
    (forall e, r = Raise e -> invalid_input data wgts).

(** Equality of complex samples as numbers (the same rationals, whatever
    the fractions that denote them). *)
Definition Ceq (a b : complex) : Prop :=
  (re a == re b)%Q /\ (im a == im b)%Q.

(** * Properties *)

(** ** The result monad *)

Lemma bind_Ok {A B} (m : result A) (f : A -> result B) (b : B) :
  m ≫= f = Ok b -> exists a, m = Ok a /\ f a = Ok b.
Proof. destruct m as [a|e]; [eauto | discriminate]. Qed.

Lemma bind_Raise {A B} (m : result A) (f : A -> result B) (e : exn) :
  m ≫= f = Raise e -> m = Raise e \/ exists a, m = Ok a /\ f a = Raise e.
Proof. destruct m as [a|e']; [eauto | intros [= ->]; auto]. Qed.

Tactic Notation "inv_bind" hyp(H) :=
  let a := fresh "x" in
  let Ha := fresh "E" in
  apply bind_Ok in H as (a & Ha & H).

Tactic Notation "inv_bind" hyp(H) "as" simple_intropattern(a) ident(Ha) :=
  apply bind_Ok in H as (a & Ha & H).

(** ** Rounding *)

Lemma py_round_comp (x y : Q) : (x == y)%Q -> py_round x = py_round y.
Proof.
  intros Hxy. unfold py_round.
  rewrite (Qfloor_comp _ _ Hxy).
  assert (Hc : ((x - inject_Z (Qfloor y) ?= 1 # 2) = (y - inject_Z (Qfloor y) ?= 1 # 2))%Q)
    by (apply Qcompare_comp; [rewrite Hxy|]; reflexivity).
  now rewrite Hc.
Qed.

Lemma Qfloor_unit (q : Q) : (0 <= q)%Q -> (q < 1)%Q -> Qfloor q = 0.
Proof.
  intros H0 H1.
  pose proof (Qfloor_le q) as Hlo. pose proof (Qlt_floor q) as Hhi.
  assert (Qfloor q < 1).
  { rewrite Zlt_Qlt. eapply Qle_lt_trans; eauto. }
  assert (0 < Qfloor q + 1).
  { rewrite Zlt_Qlt. eapply Qle_lt_trans; eauto. }
  lia.
Qed.

Lemma py_round_half (q : Q) : (0 <= q)%Q -> (q <= 1 # 2)%Q -> py_round q = 0.
Proof.
  intros H0 H1. unfold py_round.
  rewrite Qfloor_unit; [| done | eapply Qle_lt_trans; [exact H1 | reflexivity]].
  destruct (q - inject_Z 0 ?= 1 # 2)%Q eqn:E; try reflexivity.
  exfalso. rewrite <- Qgt_alt in E.
  apply (Qlt_not_le _ _ E). unfold Qminus. simpl.
  now rewrite Qplus_0_r.
Qed.

(** ** [calc_width] *)

Lemma product_nonzero (a b : Q) :
  ~ (a * b == 0)%Q -> ~ (b == 0)%Q /\ ~ (a == 0)%Q.
Proof. intros H. split; intros E; apply H; rewrite E; ring. Qed.

Lemma calc_width_scalar (fs rd : Q) (n : Z) :
  ~ (rd * inject_Z n == 0)%Q ->
  calc_width (Scalar fs) rd n =
    Ok (let w := py_round (fs * rd * inject_Z n) in
        (w + 1, if w =? 0 then n else - w)).
Proof.
  intros Hnz. unfold calc_width, float_recip.
  destruct (Qeq_bool (rd * inject_Z n) 0) eqn:E.
  { apply Qeq_bool_iff in E. contradiction. }
  simpl. destruct (Qeq_bool (1 / (rd * inject_Z n)) 0) eqn:E'.
  { apply Qeq_bool_iff in E'. exfalso. apply Hnz.
    assert (Hinv : (rd * inject_Z n == / (1 / (rd * inject_Z n)))%Q) by (field; now apply product_nonzero).
    rewrite Hinv, E'. reflexivity. }
  simpl.
  rewrite (py_round_comp (fs / (1 / (rd * inject_Z n))) (fs * rd * inject_Z n))
    by (field; now apply product_nonzero).
  set (w := py_round _).
  replace (- w =? 0) with (w =? 0); [reflexivity|].
  destruct (Z.eqb_spec w 0), (Z.eqb_spec (- w) 0); (reflexivity || lia).
Qed.

Lemma pos_product_nonzero (rd : Q) (n : Z) :
  (0 < rd)%Q -> 0 < n -> ~ (rd * inject_Z n == 0)%Q.
Proof.
  intros Hrd Hn Hz.
  assert (0 < rd * inject_Z n)%Q.
  { apply Qmult_lt_0_compat; [done|]. change 0%Q with (inject_Z 0). now rewrite <- Zlt_Qlt. }
  rewrite Hz in *. now apply (Qlt_irrefl 0).
Qed.

(** The repository's tests of [wedge_width], with the floats read as exact
    decimals. *)
Example wedge_width_test_zero : wedge_width 0 (1 # 100) 10 0 1 = Ok (1, 10).
Proof. reflexivity. Qed.
Example wedge_width_test_half : wedge_width 5 (1 # 100) 10 0 1 = Ok (1, 10).
Proof. reflexivity. Qed.
Example wedge_width_test_nine : wedge_width 9 (1 # 100) 10 0 1 = Ok (2, -1).
Proof. reflexivity. Qed.
Example wedge_width_test_fifteen : wedge_width 15 (1 # 100) 10 0 1 = Ok (3, -2).
Proof. reflexivity. Qed.
Example wedge_width_test_standoff :
  wedge_width 100 (1 # 1000) 100 5 1 = Ok (11, -10).
Proof. reflexivity. Qed.
Example wedge_width_test_horizon :
  wedge_width 100 (1 # 1000) 100 0 (3 # 2) = Ok (16, -15).
Proof. reflexivity. Qed.

(** The thresholds in exact arithmetic, where dividing by the bin width
    [1 / (real_delta * nsamples)] is multiplying by
    [real_delta * nsamples]: [(w + 1, lthresh)] with
    [w = round(filter_size * real_delta * nsamples)] and [lthresh = -w],
    except that [lthresh] is [nsamples] when [w = 0].  On floats the
    quotient and the product need not round to the same integer
    ([calc_width_float_thresholds] below). *)
Theorem calc_width_thresholds (filter_size real_delta : Q) (nsamples : Z) :
  (0 <= filter_size)%Q -> (0 < real_delta)%Q -> 0 < nsamples ->
  calc_width (Scalar filter_size) real_delta nsamples =
    Ok (let w := py_round (filter_size * real_delta * inject_Z nsamples) in
        (w + 1, if w =? 0 then nsamples else - w)).
Proof.
  intros _ Hrd Hn. apply calc_width_scalar. now apply pos_product_nonzero.
Qed.

Lemma calc_width_thresholds_witness :
  calc_width (Scalar 15) (1 # 100) 10 = Ok (3, -2).
Proof.
  apply (calc_width_thresholds 15 (1 # 100) 10); [discriminate | reflexivity | lia].
Defined.

(** ** [calc_width] on Python floats *)

Lemma Ok_bind {A B} (a : A) (f : A -> result B) : Ok a ≫= f = f a.
Proof. reflexivity. Qed.

Lemma Raise_bind {A B} (e : exn) (f : A -> result B) : Raise e ≫= f = Raise e.
Proof. reflexivity. Qed.

Lemma recip_recip (a x : Q) : (a / (1 / x) == a * x)%Q.
Proof.
  destruct (Qeq_dec x 0) as [E|E].
  - rewrite E. reflexivity.
  - field. exact E.
Qed.

Lemma calc_width_float_scalar (fs rd : spec_float) (n : Z) :
  Binary64.is_finite (Binary64.of_int n) = true ->
  Binary64.is_zero (Binary64.product rd n) = false ->
  Binary64.is_zero (Binary64.bin_width rd n) = false ->
  Binary64.is_finite (Binary64.quotient fs rd n) = true ->
  Binary64.calc_width (Binary64.Scalar fs) rd n =
    Ok (let w := py_round (Binary64.to_Q (Binary64.quotient fs rd n)) in
        (w + 1, if w =? 0 then n else - w)).
Proof.
  intros Hn Hp Hb Hq.
  unfold Binary64.quotient, Binary64.bin_width, Binary64.product in *.
  unfold Binary64.calc_width, Binary64.int_to_float. rewrite Hn, Ok_bind.
  unfold Binary64.float_truediv at 1. rewrite Hp, Ok_bind.
  unfold Binary64.truediv, Binary64.float_truediv. rewrite Hb, Ok_bind.
  unfold Binary64.round.
  destruct (Binary64.div fs _) eqn:Eq; try discriminate Hq; rewrite Ok_bind.
  - reflexivity.
  - set (w := py_round _). cbv zeta. unfold mret, result_ret.
    replace (- w =? 0) with (w =? 0); [reflexivity|].
    destruct (Z.eqb_spec w 0), (Z.eqb_spec (- w) 0); (reflexivity || lia).
Qed.

(** The repository's tests of [wedge_width] (all of [test_wedge_width]), on
    floats: the decimal literals are the nearest floats, [standoff] and
    [horizon] default to [0.] and [1.]. *)
Example wedge_width_tests_float :
  let ww (bl_len : Z) (sdf : spec_float) (nchan : Z) (standoff horizon : spec_float) :=
    Binary64.wedge_width (Binary64.of_int bl_len) sdf nchan standoff horizon in
  let dec := Binary64.decimal in
  [ ww 0 (dec 1 100) 10 (dec 0 1) (dec 1 1);
    ww 5 (dec 1 100) 10 (dec 0 1) (dec 1 1);
    ww 9 (dec 1 100) 10 (dec 0 1) (dec 1 1);
    ww 10 (dec 1 100) 10 (dec 0 1) (dec 1 1);
    ww 15 (dec 1 100) 10 (dec 0 1) (dec 1 1);
    ww 10 (dec 1 100) 20 (dec 0 1) (dec 1 1);
    ww 10 (dec 1 100) 40 (dec 0 1) (dec 1 1);
    ww 10 (dec 2 100) 10 (dec 0 1) (dec 1 1);
    ww 10 (dec 4 100) 10 (dec 0 1) (dec 1 1);
    ww 100 (dec 1 1000) 100 (dec 4 1) (dec 1 1);
    ww 100 (dec 1 1000) 100 (dec 5 1) (dec 1 1);
    ww 100 (dec 1 1000) 100 (dec 10 1) (dec 1 1);
    ww 100 (dec 1 1000) 100 (dec 15 1) (dec 1 1);
    ww 100 (dec 1 1000) 100 (dec 0 1) (dec 1 10);
    ww 100 (dec 1 1000) 100 (dec 0 1) (dec 5 10);
    ww 100 (dec 1 1000) 100 (dec 0 1) (dec 15 10);
    ww 100 (dec 1 1000) 100 (dec 0 1) (dec 2 1) ]
  = [ Ok (1, 10); Ok (1, 10); Ok (2, -1); Ok (2, -1); Ok (3, -2);
      Ok (3, -2); Ok (5, -4); Ok (3, -2); Ok (5, -4);
      Ok (11, -10); Ok (11, -10); Ok (12, -11); Ok (13, -12);
      Ok (2, -1); Ok (6, -5); Ok (16, -15); Ok (21, -20) ].
Proof. vm_compute. reflexivity. Qed.

(** Where the float quotient and the product part.  [calc_width(35, 0.1, 3)]
    is [(12, -11)]: the bin width [1 / (0.1 * 3)] and the quotient are
    rounded, and the quotient comes out just above [10.5]; the product
    [35 * 0.1 * 3] on floats is [10.5], which rounds to [10].  And
    [calc_width(5., .01, 10)] is [(1, 10)], the repository's test, where
    the float [.01] is above the decimal and the exact product is above
    [0.5]. *)
Example calc_width_float_35 :
  Binary64.calc_width (Binary64.Scalar (Binary64.of_int 35))
    (Binary64.decimal 1 10) 3 = Ok (12, -11) /\
  py_round (Binary64.to_Q
              (Binary64.mul (Binary64.mul (Binary64.of_int 35)
                                          (Binary64.decimal 1 10))
                            (Binary64.of_int 3))) = 10 /\
  calc_width (Scalar 35) (1 # 10) 3 = Ok (11, -10).
Proof. vm_compute. auto. Qed.

Example calc_width_float_250 :
  Binary64.calc_width (Binary64.Scalar (Binary64.of_int 250))
    (Binary64.decimal 3 100) 1 = Ok (8, -7) /\
  py_round (Binary64.to_Q
              (Binary64.mul (Binary64.mul (Binary64.of_int 250)
                                          (Binary64.decimal 3 100))
                            (Binary64.of_int 1))) = 8 /\
  calc_width (Scalar 250) (3 # 100) 1 = Ok (9, -8).
Proof. vm_compute. auto. Qed.

Example calc_width_float_5 :
  Binary64.calc_width (Binary64.Scalar (Binary64.of_int 5))
    (Binary64.decimal 1 100) 10 = Ok (1, 10) /\
  py_round (Binary64.to_Q (Binary64.of_int 5)
            * Binary64.to_Q (Binary64.decimal 1 100) * inject_Z 10) = 1.
Proof. vm_compute. auto. Qed.

(** C1, the claim as stated, fails on floats, whether the product
    [filter_size * real_delta * nsamples] is computed on floats (at
    [calc_width(35, 0.1, 3)], which is [(12, -11)] and not [(11, -10)]) or
    is the exact product of the numbers that the floats denote (at
    [calc_width(5., .01, 10)], which is [(1, 10)] and not [(2, -1)]). *)
Lemma calc_width_product_counterexample :
  ~ (forall (filter_size real_delta : spec_float) (nsamples : Z),
       Binary64.is_finite filter_size = true ->
       Binary64.is_finite real_delta = true ->
       SFleb (Binary64.of_int 0) filter_size = true ->
       SFltb (Binary64.of_int 0) real_delta = true -> 0 < nsamples ->
       Binary64.calc_width (Binary64.Scalar filter_size) real_delta nsamples =
         Ok (let w := py_round (Binary64.to_Q
                         (Binary64.mul (Binary64.mul filter_size real_delta)
                                       (Binary64.of_int nsamples))) in
             (w + 1, if w =? 0 then nsamples else - w))) /\
  ~ (forall (filter_size real_delta : spec_float) (nsamples : Z),
       Binary64.is_finite filter_size = true ->
       Binary64.is_finite real_delta = true ->
       SFleb (Binary64.of_int 0) filter_size = true ->
       SFltb (Binary64.of_int 0) real_delta = true -> 0 < nsamples ->
       Binary64.calc_width (Binary64.Scalar filter_size) real_delta nsamples =
         Ok (let w := py_round (Binary64.to_Q filter_size
                                 * Binary64.to_Q real_delta
                                 * inject_Z nsamples) in
             (w + 1, if w =? 0 then nsamples else - w))).
Proof.
  split; intros H.
  - specialize (H (Binary64.of_int 35) (Binary64.decimal 1 10) 3
                  eq_refl eq_refl eq_refl eq_refl eq_refl).
    vm_compute in H. discriminate H.
  - specialize (H (Binary64.of_int 5) (Binary64.decimal 1 100) 10
                  eq_refl eq_refl eq_refl eq_refl eq_refl).
    vm_compute in H. discriminate H.
Qed.

(** C1, amended. On floats, whenever [nsamples] converts to a float, the
    product [real_delta * nsamples] and the bin width
    [1. / (real_delta * nsamples)] are not zero and the quotient
    [filter_size / bin_width] is finite, [calc_width] returns
    [(w + 1, lthresh)] where [w] is the nearest integer (ties to even) to
    that quotient, each of the three operations being rounded to a float,
    and [lthresh = -w], except that [lthresh] is [nsamples] when [w = 0].
    When none of the three operations rounds, [w] is
    [round(filter_size * real_delta * nsamples)]. *)
Theorem calc_width_float_thresholds (filter_size real_delta : spec_float)
    (nsamples : Z) :
  Binary64.is_finite (Binary64.of_int nsamples) = true ->
  Binary64.is_zero (Binary64.product real_delta nsamples) = false ->
  Binary64.is_zero (Binary64.bin_width real_delta nsamples) = false ->
  Binary64.is_finite (Binary64.quotient filter_size real_delta nsamples) = true ->
  Binary64.calc_width (Binary64.Scalar filter_size) real_delta nsamples =
    Ok (let w := py_round (Binary64.to_Q
                    (Binary64.quotient filter_size real_delta nsamples)) in
        (w + 1, if w =? 0 then nsamples else - w)) /\
  ((Binary64.to_Q (Binary64.product real_delta nsamples)
      == Binary64.to_Q real_delta * inject_Z nsamples)%Q ->
   (Binary64.to_Q (Binary64.bin_width real_delta nsamples)
      == 1 / Binary64.to_Q (Binary64.product real_delta nsamples))%Q ->
   (Binary64.to_Q (Binary64.quotient filter_size real_delta nsamples)
      == Binary64.to_Q filter_size
         / Binary64.to_Q (Binary64.bin_width real_delta nsamples))%Q ->
   Binary64.calc_width (Binary64.Scalar filter_size) real_delta nsamples =
     Ok (let w := py_round (Binary64.to_Q filter_size
                             * Binary64.to_Q real_delta
                             * inject_Z nsamples) in
         (w + 1, if w =? 0 then nsamples else - w))).
Proof.
  intros Hn Hp Hb Hq.
  pose proof (calc_width_float_scalar _ _ _ Hn Hp Hb Hq) as Hcw.
  split; [exact Hcw|].
  intros Ep Eb Eq. rewrite Hcw.
  rewrite (py_round_comp
             (Binary64.to_Q (Binary64.quotient filter_size real_delta nsamples))
             (Binary64.to_Q filter_size * Binary64.to_Q real_delta
              * inject_Z nsamples));
    [reflexivity|].
  rewrite Eq, Eb, Ep, recip_recip. ring.
Qed.

(** At [calc_width(35, 0.1, 3)], and at [calc_width(3, 0.25, 8)] where no
    operation rounds. *)
Lemma calc_width_float_thresholds_witness :
  Binary64.calc_width (Binary64.Scalar (Binary64.of_int 35))
    (Binary64.decimal 1 10) 3 = Ok (12, -11) /\
  Binary64.calc_width (Binary64.Scalar (Binary64.of_int 3))
    (Binary64.decimal 1 4) 8 = Ok (7, -6).
Proof.
  split.
  - destruct (calc_width_float_thresholds (Binary64.of_int 35)
                (Binary64.decimal 1 10) 3)
      as [Hq _]; [vm_compute; reflexivity .. |].
    exact Hq.
  - destruct (calc_width_float_thresholds (Binary64.of_int 3)
                (Binary64.decimal 1 4) 8)
      as [_ Hexact]; [vm_compute; reflexivity .. |].
    apply Hexact; vm_compute; reflexivity.
Defined.




(** C5. The code does not accept a sequence of half-widths: dividing a tuple
    by the bin width raises [TypeError], where the repository's test
    [test_calc_width] expects a pair of thresholds. *)
Theorem calc_width_sequence_raises :
  calc_width (Sequence [1 # 100; 2 # 100]%Q) 10 100 = Raise TypeError.
Proof. reflexivity. Qed.

Lemma np_max_pair (a b : Q) : np_max [a; b] = Ok (Qmax a b).
Proof.
  unfold np_max, Qmax, GenericMinMax.gmax. cbn [foldl]. f_equal.
  destruct (Qlt_le_dec a b) as [Hlt|Hle].
  - apply Qlt_alt in Hlt. change ((a ?= b)%Q = Lt) in Hlt. now rewrite Hlt.
  - destruct (a ?= b)%Q eqn:E; try reflexivity.
    apply Qlt_alt in E. now apply Qlt_not_le in E.
Qed.

Section FilterProperties.
Context `{Backend}.

(** C7. [delay_filter] returns the result of [high_pass_fourier_filter] with
    [filter_size = max(horizon * bl_len + standoff, min_dly)] and every
    other parameter forwarded unchanged. *)
Theorem delay_filter_forwards (data wgts : ndarray) (bl_len sdf : Q)
    (standoff horizon min_dly : Q) (tol : Q) (window : string)
    (skip_wgt : Q) (maxiter : Z) (gain : Q) (win_kwargs : dict) :
  delay_filter data wgts bl_len sdf standoff horizon min_dly tol window
               skip_wgt maxiter gain win_kwargs =
  high_pass_fourier_filter data wgts
    (Scalar (Qmax (horizon * bl_len + standoff) min_dly)) sdf tol window
    skip_wgt maxiter gain win_kwargs.
Proof. unfold delay_filter. now rewrite np_max_pair. Qed.

(** C10. For 1-D input the result does not depend on [skip_wgt], and the
    spectrum is always filtered: whenever the call returns, whatever the
    weights and [skip_wgt] are, the model is the transform of the CLEAN
    model of the whole spectrum ([clean] applied to [_d] and [_w] under the
    mask), the metadata is that of CLEAN without its ['res'] entry, and the
    residual is the data minus the model; no result of the skipping policy
    (a zero model, [{'skipped': True}]) is returned. *)
Theorem skip_wgt_unused_1d (data wgts : ndarray) (filter_size : filter_arg)
    (real_delta tol : Q) (window : string) (skip_wgt skip_wgt' : Q)
    (maxiter : Z) (gain : Q) (win_kwargs : dict) :
  ndim data = 1%nat ->
  high_pass_fourier_filter data wgts filter_size real_delta tol window
                           skip_wgt maxiter gain win_kwargs =
  high_pass_fourier_filter data wgts filter_size real_delta tol window
                           skip_wgt' maxiter gain win_kwargs /\
  forall (mdl res : ndarray) (inf : info),
    high_pass_fourier_filter data wgts filter_size real_delta tol window
                             skip_wgt maxiter gain win_kwargs = Ok (mdl, res, inf) ->
    exists (nchan : nat) (_d _w : ndarray) (uthresh lthresh : Z)
           (_d_cl : ndarray) (info_cl : dict),
      shape_last data = Ok nchan /\
      data_spectrum data wgts nchan window win_kwargs = Ok _d /\
      weight_spectrum wgts nchan window win_kwargs = Ok _w /\
      calc_width filter_size real_delta (Z.of_nat nchan) = Ok (uthresh, lthresh) /\
      clean _d _w (set_slice uthresh lthresh 0 (replicate nchan 1))
            tol false maxiter gain = Ok (_d_cl, info_cl) /\
      lastaxis fft _d_cl = Ok mdl /\
      is_Some (info_cl !! "res") /\
      inf = InfoDict (delete "res" info_cl) /\
      nd_sub data mdl = Ok res.
Proof.
  intros Hd. split.
  { unfold high_pass_fourier_filter.
    destruct (decide (ndim data = 1%nat)); [reflexivity | contradiction]. }
  intros mdl res inf Hf. unfold high_pass_fourier_filter in Hf.
  inv_bind Hf as nchan Hn. inv_bind Hf as win Hwin.
  inv_bind Hf as dw Hdw. inv_bind Hf as dww Hdww. inv_bind Hf as _d Hsd.
  inv_bind Hf as ww Hww. inv_bind Hf as _w Hsw.
  inv_bind Hf as [u l] Hcw.
  inv_bind Hf as [d_mdl inf'] Hbr.
  inv_bind Hf as d_res Hres. injection Hf as <- <- <-.
  rewrite decide_True in Hbr by done.
  inv_bind Hbr as [cl info0] Hcl.
  inv_bind Hbr as m Hm. inv_bind Hbr as info1 Hdel. injection Hbr as <- <-.
  unfold dict_del in Hdel.
  destruct (info0 !! "res") as [v|] eqn:Ev; [|discriminate].
  injection Hdel as <-.
  exists nchan, _d, _w, u, l, cl, info0.
  unfold data_spectrum, weight_spectrum.
  rewrite Hwin. simpl. rewrite Hdw. simpl. rewrite Hdww. simpl.
  rewrite Hww. simpl. repeat split; eauto.
Qed.

End FilterProperties.

(** ** The suppression operator without regions *)

Lemma Cadd_identity_entry (i j : nat) :
  Cadd (if decide (i = j) then C1 else C0) C0 = if decide (i = j) then C1 else C0.
Proof. now destruct (decide (i = j)). Qed.

(** C9. With empty lists of centers, widths and factors,
    [sinc_downweight_mat_inv(n, df, [], [], [])] is exactly the [n] by [n]
    identity matrix, for every [n] (so for every [n > 0]) and sample
    spacing. *)
Theorem sinc_downweight_mat_inv_no_regions (sinc : Q -> Q) (nwrap : nat)
    (n : nat) (df : Q) :
  Linear.sinc_downweight_mat_inv sinc nwrap n df [] [] [] false false
  = Linear.identity n.
Proof.
  unfold Linear.sinc_downweight_mat_inv. simpl.
  apply list_eq. intros i. rewrite list_lookup_imap.
  unfold Linear.identity. rewrite list_lookup_fmap.
  destruct (seq 0 n !! i) as [i'|] eqn:Ei; [|reflexivity].
  simpl. f_equal. apply list_eq. intros j.
  rewrite list_lookup_imap, list_lookup_fmap.
  destruct (seq 0 n !! j) as [j'|]; [|reflexivity].
  simpl. f_equal. apply Cadd_identity_entry.
Qed.

(** ** Broadcasting *)

Lemma bshape_refl (s : list nat) : bshape s s = Some s.
Proof.
  induction s as [|d s IH]; [reflexivity|].
  simpl. rewrite IH. simpl. now rewrite decide_True.
Qed.

Lemma pad_length_same (s : list nat) : pad (length s) s = s.
Proof. unfold pad. now rewrite Nat.sub_diag. Qed.

Lemma broadcast_shapes_refl (s : list nat) : broadcast_shapes s s = Some s.
Proof.
  unfold broadcast_shapes. rewrite Nat.max_id, pad_length_same.
  apply bshape_refl.
Qed.

Lemma bind_seq_blocks (b k d a : nat) :
  (seq a d ≫= fun i => seq ((b + i) * k) k) = seq ((b + a) * k) (d * k).
Proof.
  revert a. induction d as [|d IH]; intros a; [reflexivity|].
  change (seq a (S d)) with (a :: seq (S a) d). rewrite bind_cons, IH.
  replace (S d * k)%nat with (k + d * k)%nat by lia.
  rewrite seq_app. do 2 f_equal. lia.
Qed.

Lemma bind_seq_const {A} (X : list A) (d a : nat) :
  (seq a d ≫= fun _ => X) = mjoin (replicate d X).
Proof.
  revert a. induction d as [|d IH]; intros a; [reflexivity|].
  change (seq a (S d)) with (a :: seq (S a) d). rewrite bind_cons, IH. reflexivity.
Qed.

Lemma src_offsets_same (s : list nat) (base : nat) :
  src_offsets s s base = seq (base * size s) (size s).
Proof.
  revert base. induction s as [|d s IH]; intros base.
  - simpl. now rewrite Nat.mul_1_r.
  - cbn [src_offsets size foldr]. fold (size s).
    destruct (decide (d = 1%nat)) as [->|Hd].
    + change (seq 0 1) with [0%nat]. rewrite bind_cons, IH. simpl.
      rewrite app_nil_r. f_equal; lia.
    + erewrite list_bind_ext; [| intros i; apply IH | reflexivity].
      rewrite (bind_seq_blocks (base * d) (size s) d 0).
      f_equal; lia.
Qed.

Lemma lookup_total_seq (l : list complex) :
  (fun k => l !!! k) <$> seq 0 (length l) = l.
Proof.
  induction l as [|x l IH]; [reflexivity|].
  simpl. f_equal. rewrite <- fmap_S_seq, <- list_fmap_compose.
  exact IH.
Qed.

Lemma gather_same (a : ndarray) : wf a -> gather a (shape a) = flat a.
Proof.
  intros Hwf. unfold gather.
  rewrite pad_length_same, src_offsets_same. simpl.
  rewrite <- Hwf. apply lookup_total_seq.
Qed.

Lemma broadcast2_same_shape (f : complex -> complex -> complex) (a b : ndarray) :
  wf a -> wf b -> shape b = shape a ->
  broadcast2 f a b = Ok (Nd (shape a) (zip_with f (flat a) (flat b))).
Proof.
  intros Ha Hb Hs. unfold broadcast2.
  rewrite Hs, broadcast_shapes_refl.
  rewrite gather_same by done. rewrite <- Hs, gather_same by done.
  reflexivity.
Qed.

Lemma bshape_length (s1 s2 r : list nat) :
  bshape s1 s2 = Some r -> length s1 = length r /\ length s2 = length r.
Proof.
  revert s2 r. induction s1 as [|d1 s1 IH]; intros [|d2 s2] r; simpl; try discriminate.
  - intros [= <-]. done.
  - destruct (bshape s1 s2) as [r'|] eqn:E; [|discriminate].
    simpl. destruct (IH _ _ E) as [-> ->].
    repeat case_decide; intros [= <-]; done.
Qed.

Lemma length_pad (n : nat) (s : list nat) :
  length (pad n s) = (n `max` length s)%nat.
Proof. unfold pad. rewrite length_app, length_replicate. lia. Qed.

Lemma length_bind_const {A} (f : nat -> list A) (k d a : nat) :
  (forall i, length (f i) = k) -> length (seq a d ≫= f) = (d * k)%nat.
Proof.
  intros Hf. revert a. induction d as [|d IH]; intros a; [reflexivity|].
  change (seq a (S d)) with (a :: seq (S a) d).
  rewrite bind_cons, length_app, IH, Hf. lia.
Qed.

Lemma length_src_offsets (sa s : list nat) (base : nat) :
  length sa = length s -> length (src_offsets sa s base) = size s.
Proof.
  revert s base. induction sa as [|da sa IH]; intros [|d s] base; simpl; try discriminate.
  - done.
  - intros [= Hl]. apply length_bind_const. intros i. now apply IH.
Qed.

Lemma length_gather (a : ndarray) (s : list nat) :
  (length (shape a) <= length s)%nat -> length (gather a s) = size s.
Proof.
  intros Hl. unfold gather. rewrite length_fmap.
  apply length_src_offsets. rewrite length_pad. lia.
Qed.

Lemma broadcast_shapes_window_1d (n : nat) (sw : list nat) :
  sw = [] \/ sw = [n] -> broadcast_shapes [n] sw = Some [n].
Proof.
  intros [->| ->]; unfold broadcast_shapes; simpl;
    repeat case_decide; (done || congruence).
Qed.

Lemma broadcast_shapes_window_2d (t n : nat) (sw : list nat) :
  sw = [] \/ sw = [n] -> broadcast_shapes [t; n] sw = Some [t; n].
Proof.
  intros [->| ->]; unfold broadcast_shapes; simpl;
    repeat case_decide; (done || congruence).
Qed.

Lemma gather_window_2d (t n : nat) (win : ndarray) :
  shape win = [] \/ shape win = [n] ->
  gather win [t; n] = mjoin (replicate t (gather win [n])).
Proof.
  intros Hs. unfold gather.
  assert (Hpad : pad 2 (shape win) = 1%nat :: pad 1 (shape win))
    by (destruct Hs as [-> | ->]; reflexivity).
  simpl length. rewrite Hpad.
  transitivity ((fun k => flat win !!! k) <$>
                (seq 0 t ≫= fun _ => src_offsets (pad 1 (shape win)) [n] 0));
    [reflexivity|].
  rewrite bind_seq_const.
  induction t as [|t IH]; [reflexivity|].
  simpl. now rewrite fmap_app, IH.
Qed.

Lemma nd_mul_window (a win : ndarray) (t n : nat) :
  wf a -> shape a = [n] \/ shape a = [t; n] ->
  shape win = [] \/ shape win = [n] ->
  nd_mul a win = Ok (Nd (shape a) (zip_with Cmul (flat a) (gather win (shape a)))).
Proof.
  intros Ha Hs Hw. unfold nd_mul, broadcast2.
  assert (Hb : broadcast_shapes (shape a) (shape win) = Some (shape a)).
  { destruct Hs as [-> | ->];
      auto using broadcast_shapes_window_1d, broadcast_shapes_window_2d. }
  rewrite Hb, gather_same by done. reflexivity.
Qed.

(** ** Rows of a row-major buffer *)

Lemma length_row (n i t : nat) (l : list complex) :
  length l = (t * n)%nat -> (i < t)%nat -> length (row n i l) = n.
Proof.
  intros Hl Hi. unfold row. rewrite length_take, length_drop. nia.
Qed.

Lemma sublist_lookup_row (n i t : nat) (l : list complex) :
  length l = (t * n)%nat -> (i < t)%nat ->
  sublist_lookup (i * n) n l = Some (row n i l).
Proof. intros Hl Hi. apply sublist_lookup_Some. nia. Qed.

Lemma row_zip_with (f : complex -> complex -> complex) (n i : nat)
    (l k : list complex) :
  row n i (zip_with f l k) = zip_with f (row n i l) (row n i k).
Proof. unfold row. now rewrite zip_with_drop, zip_with_take. Qed.

Lemma row_join (n i : nat) (ls : list (list complex)) (r : list complex) :
  Forall (fun x => length x = n) ls -> ls !! i = Some r ->
  row n i (mjoin ls) = r.
Proof.
  intros Hall. revert i. induction Hall as [|x ls Hx Hall IH]; intros i; [done|].
  destruct i as [|i]; simpl.
  - intros [= ->]. unfold row. simpl. now apply take_app_length'.
  - intros Hi. unfold row. change (S i * n)%nat with (n + i * n)%nat.
    rewrite drop_app_add' by done. now apply IH.
Qed.

Lemma row_join_replicate (n i t : nat) (X : list complex) :
  length X = n -> (i < t)%nat -> row n i (mjoin (replicate t X)) = X.
Proof.
  intros HX Hi. apply row_join.
  - now apply Forall_replicate.
  - now apply lookup_replicate_2.
Qed.

Lemma row_lastaxis (f : list complex -> list complex) (n i t : nat)
    (l : list complex) :
  (forall x, length (f x) = length x) ->
  (0 < n)%nat -> length l = (t * n)%nat -> (i < t)%nat ->
  row n i (mjoin (f <$> reshape (replicate t n) l)) = f (row n i l).
Proof.
  intros Hf Hn Hl Hi. apply row_join.
  - apply Forall_lookup. intros j x Hj.
    rewrite list_lookup_fmap, sublist_lookup_reshape in Hj by done.
    destruct (sublist_lookup (j * n) n l) as [y|] eqn:E; [|discriminate].
    injection Hj as <-. rewrite Hf. eapply sublist_lookup_length, E.
  - rewrite list_lookup_fmap, sublist_lookup_reshape by done.
    erewrite sublist_lookup_row by done. reflexivity.
Qed.

Lemma length_join_same (n : nat) (ls : list (list complex)) :
  Forall (fun x => length x = n) ls -> length (mjoin ls) = (length ls * n)%nat.
Proof.
  induction 1 as [|x ls Hx _ IH]; [reflexivity|].
  simpl. rewrite length_app, IH, Hx. reflexivity.
Qed.

Lemma length_lastaxis_flat (f : list complex -> list complex) (n t : nat)
    (l : list complex) :
  (forall x, length (f x) = length x) ->
  (0 < n)%nat -> length l = (t * n)%nat ->
  length (mjoin (f <$> reshape (replicate t n) l)) = (t * n)%nat.
Proof.
  intros Hf Hn Hl.
  rewrite (length_join_same n).
  - now rewrite length_fmap, length_reshape, length_replicate.
  - apply Forall_lookup. intros j x Hj.
    rewrite list_lookup_fmap, sublist_lookup_reshape in Hj by done.
    destruct (sublist_lookup (j * n) n l) as [y|] eqn:E; [|discriminate].
    injection Hj as <-. rewrite Hf. eapply sublist_lookup_length, E.
Qed.

Lemma lastaxis_2d (f : list complex -> list complex) (t n : nat)
    (fl : list complex) (r : ndarray) :
  lastaxis f (Nd [t; n] fl) = Ok r ->
  (0 < n)%nat /\ r = Nd [t; n] (mjoin (f <$> reshape (replicate t n) fl)).
Proof.
  unfold lastaxis. simpl. destruct n as [|n]; [discriminate|].
  rewrite Nat.mul_1_r. intros [= <-]. split; [lia | reflexivity].
Qed.

Lemma lastaxis_1d (f : list complex -> list complex) (n : nat)
    (fl : list complex) (r : ndarray) :
  lastaxis f (Nd [n] fl) = Ok r ->
  (0 < n)%nat /\ r = Nd [n] (f (take n fl)).
Proof.
  unfold lastaxis. simpl. destruct n as [|n]; [discriminate|].
  rewrite app_nil_r. intros [= <-]. split; [lia | reflexivity].
Qed.

Lemma lastaxis_shape (f : list complex -> list complex) (a r : ndarray) :
  lastaxis f a = Ok r -> shape r = shape a.
Proof.
  unfold lastaxis. destruct (last (shape a)) as [[|n]|]; try discriminate.
  now intros [= <-].
Qed.

Lemma index0_2d (t n i : nat) (fl : list complex) :
  (i < t)%nat -> index0 (Nd [t; n] fl) i = Ok (Nd [n] (row n i fl)).
Proof.
  intros Hi. unfold index0. simpl. rewrite decide_True by done.
  now rewrite Nat.mul_1_r.
Qed.

Lemma Csub_zero (z : complex) : Csub z C0 = z.
Proof.
  destruct z as [[a b] [c d]]. unfold Csub, C0, Qminus, Qplus, Qopp. simpl.
  now rewrite !Z.mul_1_r, !Z.add_0_r, !Pos.mul_1_r.
Qed.

Lemma zip_with_Csub_zeros (l : list complex) (n : nat) :
  length l = n -> zip_with Csub l (replicate n C0) = l.
Proof.
  intros <-. induction l as [|x l IH]; [reflexivity|].
  simpl. now rewrite Csub_zero, IH.
Qed.

(** ** The loop over the rows *)

Lemma broadcast_to_length (m : ndarray) (n : nat) (fl : list complex) :
  broadcast_to m [n] = Some fl -> length fl = n.
Proof.
  unfold broadcast_to. case_decide as Hb; [|discriminate]. intros [= <-].
  unfold broadcast_shapes in Hb. apply bshape_length in Hb as [Hl _].
  rewrite length_pad in Hl. simpl in Hl.
  rewrite length_gather by (simpl; lia). simpl. lia.
Qed.

Lemma broadcast_to_zero (n : nat) :
  broadcast_to (scalar C0) [n] = Some (replicate n C0).
Proof.
  unfold broadcast_to. simpl strip_ones.
  rewrite decide_True
    by (unfold broadcast_shapes; simpl; repeat case_decide; (done || congruence)).
  f_equal. unfold gather.
  transitivity ((fun k => [C0] !!! k) <$> (seq 0 n ≫= fun _ => [0%nat]));
    [reflexivity|].
  rewrite bind_seq_const.
  induction n as [|n IH]; [reflexivity|]. simpl. now f_equal.
Qed.

Section Rows.
Context `{Backend}.
Variables (_d _w : ndarray) (area : list Z) (tol skip_wgt : Q)
          (maxiter : Z) (gain : Q) (t n : nat).

Lemma setitem0_2d (m v : ndarray) (i : nat) (m' : ndarray) :
  shape m = [t; n] -> setitem0 m i v = Ok m' ->
  exists fl, broadcast_to v [n] = Some fl /\ (i < t)%nat /\
    m' = Nd [t; n] (sublist_alter (fun _ => fl) (i * n) n (flat m)).
Proof.
  intros Hs. unfold setitem0. rewrite Hs.
  case_decide; [|discriminate].
  destruct (broadcast_to v [n]) as [fl|]; [|discriminate].
  simpl. rewrite Nat.mul_1_r. intros [= <-]. eauto.
Qed.

Lemma filter_row_spec (i : nat) (m : ndarray) (infos : list dict)
    (m' : ndarray) (infos' : list dict) :
  shape m = [t; n] ->
  filter_row _d _w area tol skip_wgt maxiter gain i (m, infos) = Ok (m', infos') ->
  exists fl inf,
    row_outcome (index0 _d i) (index0 _w i) area tol skip_wgt maxiter gain n
      = Ok (fl, inf) /\
    (i < t)%nat /\ length fl = n /\
    m' = Nd [t; n] (sublist_alter (fun _ => fl) (i * n) n (flat m)) /\
    infos' = infos ++ [inf].
Proof.
  intros Hs Hrow. unfold filter_row in Hrow. unfold row_outcome.
  inv_bind Hrow. unfold index2 in E. rewrite E. simpl.
  inv_bind Hrow. rewrite E0. simpl.
  destruct x0.
  - inv_bind Hrow. injection Hrow as <- <-.
    apply (setitem0_2d _ _ _ _ Hs) in E1 as (fl & Hfl & Hi & ->).
    rewrite broadcast_to_zero in Hfl. injection Hfl as <-.
    eexists _, _. split; [reflexivity|].
    now rewrite length_replicate.
  - inv_bind Hrow. rewrite E1. simpl.
    inv_bind Hrow. rewrite E2. simpl.
    inv_bind Hrow. rewrite E3. destruct x2 as [cl inf]. simpl.
    inv_bind Hrow. rewrite E4. simpl.
    inv_bind Hrow. inv_bind Hrow. injection Hrow as <- <-.
    apply (setitem0_2d _ _ _ _ Hs) in E5 as (fl & Hfl & Hi & ->).
    rewrite Hfl, E6. simpl.
    eexists _, _. split; [reflexivity|].
    eauto using broadcast_to_length.
Qed.

End Rows.

Lemma row_alter_eq (n i t : nat) (fl l : list complex) :
  length l = (t * n)%nat -> (i < t)%nat -> length fl = n ->
  row n i (sublist_alter (fun _ => fl) (i * n) n l) = fl.
Proof.
  intros Hl Hi Hfl.
  pose proof (sublist_lookup_row n i t l Hl Hi) as Hrow.
  pose proof (sublist_lookup_alter (fun _ => fl) l (i * n) n _ Hrow Hfl) as Ha.
  rewrite Hrow in Ha. simpl in Ha.
  apply sublist_lookup_Some' in Ha as [Ha _]. now symmetry.
Qed.

Lemma row_alter_ne (n i j t : nat) (fl l : list complex) :
  length l = (t * n)%nat -> (i < t)%nat -> (j < t)%nat -> i <> j ->
  length fl = n ->
  row n i (sublist_alter (fun _ => fl) (j * n) n l) = row n i l.
Proof.
  intros Hl Hi Hj Hne Hfl.
  pose proof (sublist_lookup_row n j t l Hl Hj) as Hrow.
  assert (Hd : (i * n + n <= j * n \/ j * n + n <= i * n)%nat) by nia.
  pose proof (sublist_lookup_alter_ne (fun _ => fl) l (i * n) (j * n) n _
                Hrow Hfl Hd) as Ha.
  rewrite (sublist_lookup_row n i t l Hl Hi) in Ha.
  apply sublist_lookup_Some' in Ha as [Ha _]. now symmetry.
Qed.

Lemma length_row_alter (n j t : nat) (fl l : list complex) :
  length l = (t * n)%nat -> (j < t)%nat -> length fl = n ->
  length (sublist_alter (fun _ => fl) (j * n) n l) = (t * n)%nat.
Proof.
  intros Hl Hj Hfl. rewrite <- Hl.
  eapply length_sublist_alter; [|exact Hfl].
  now apply (sublist_lookup_row n j t).
Qed.

Section Loop.
Context `{Backend}.
Variables (_d _w : ndarray) (area : list Z) (tol skip_wgt : Q)
          (maxiter : Z) (gain : Q) (t n : nat).

Lemma for_each_rows (cnt : nat) :
  forall (k : nat) (m : ndarray) (infos : list dict)
         (m' : ndarray) (infos' : list dict),
  for_each (filter_row _d _w area tol skip_wgt maxiter gain) (seq k cnt)
           (m, infos) = Ok (m', infos') ->
  shape m = [t; n] -> length (flat m) = (t * n)%nat ->
  length infos = k -> (k + cnt <= t)%nat ->
  shape m' = [t; n] /\ length (flat m') = (t * n)%nat /\
  length infos' = (k + cnt)%nat /\
  (forall i, (i < k)%nat ->
     row n i (flat m') = row n i (flat m) /\ infos' !! i = infos !! i) /\
  (forall i, (k <= i < k + cnt)%nat ->
     exists fl inf,
       row_outcome (index0 _d i) (index0 _w i) area tol skip_wgt maxiter gain n
         = Ok (fl, inf) /\
       row n i (flat m') = fl /\ infos' !! i = Some inf).
Proof.
  induction cnt as [|cnt IH]; intros k m infos m' infos' Hloop Hs Hl Hk Hle.
  - injection Hloop as <- <-. repeat split; auto; intros; lia.
  - change (seq k (S cnt)) with (k :: seq (S k) cnt) in Hloop.
    simpl in Hloop. inv_bind Hloop. destruct x as [m1 infos1].
    apply (filter_row_spec _ _ _ _ _ _ _ t n _ _ _ _ _ Hs) in E
      as (fl & inf & Hout & Hkt & Hfl & -> & ->).
    apply IH in Hloop as (Hs' & Hl' & Hk' & Hold & Hnew); simpl;
      [ | done | now apply length_row_alter
        | rewrite length_app; simpl; lia | lia ].
    simpl in Hold.
    repeat split; [done | done | lia | | | ].
    + destruct (Hold i ltac:(lia)) as [-> _].
      apply (row_alter_ne n i k t); (done || lia).
    + destruct (Hold i ltac:(lia)) as [_ ->].
      apply lookup_app_l. lia.
    + intros i Hi. destruct (decide (i = k)) as [->|Hne].
      * exists fl, inf. destruct (Hold k ltac:(lia)) as [-> ->].
        split; [exact Hout|]. split.
        -- now apply (row_alter_eq n k t).
        -- rewrite <- Hk. apply list_lookup_middle. reflexivity.
      * apply Hnew. lia.
Qed.

End Loop.

(** ** The filter on 2-D input *)

Lemma size_2d (t n : nat) : size [t; n] = (t * n)%nat.
Proof. unfold size. simpl. lia. Qed.

Section Filter2D.
Context `{Backend}.

Lemma hpff_2d_inv (data wgts : ndarray) (filter_size : filter_arg)
    (real_delta tol : Q) (window : string) (skip_wgt : Q) (maxiter : Z)
    (gain : Q) (win_kwargs : dict) (t n : nat) (mdl res : ndarray) (inf : info) :
  shape data = [t; n] -> wf data ->
  high_pass_fourier_filter data wgts filter_size real_delta tol window
                           skip_wgt maxiter gain win_kwargs = Ok (mdl, res, inf) ->
  exists win dw dww _d ww _w u l infos,
    gen_window n window win_kwargs = Ok win /\
    nd_mul data wgts = Ok dw /\ nd_mul dw win = Ok dww /\
    lastaxis ifft dww = Ok _d /\
    nd_mul wgts win = Ok ww /\ lastaxis ifft ww = Ok _w /\
    calc_width filter_size real_delta (Z.of_nat n) = Ok (u, l) /\
    inf = InfoList infos /\ length infos = t /\
    shape mdl = [t; n] /\ length (flat mdl) = (t * n)%nat /\
    res = Nd [t; n] (zip_with Csub (flat data) (flat mdl)) /\
    forall i, (i < t)%nat ->
      exists fl irow,
        row_outcome (index0 _d i) (index0 _w i)
                    (set_slice u l 0 (replicate n 1)) tol skip_wgt maxiter gain n
          = Ok (fl, irow) /\
        row n i (flat mdl) = fl /\ infos !! i = Some irow.
Proof.
  intros Hs Hwf Hf. unfold high_pass_fourier_filter in Hf.
  unfold shape_last, shape_first, ndim in Hf. rewrite Hs in Hf. simpl in Hf.
  inv_bind Hf. rename x into win, E into Hwin.
  inv_bind Hf. rename x into dw, E into Hdw.
  inv_bind Hf. rename x into dww, E into Hdww.
  inv_bind Hf. rename x into _d, E into Hd.
  inv_bind Hf. rename x into ww, E into Hww.
  inv_bind Hf. rename x into _w, E into Hw.
  inv_bind Hf. destruct x as [u l]. rename E into Hcw.
  inv_bind Hf. destruct x as [d_mdl inf']. rename E into Hbranch.
  inv_bind Hf. injection Hf as <- <- <-. rename E into Hres.
  inv_bind Hbranch. destruct x0 as [d_mdl' infos].
  injection Hbranch as <- <-. rename E into Hloop.
  apply (for_each_rows _ _ _ _ _ _ _ t n) in Hloop
    as (Hsm & Hlm & Hli & _ & Hrows);
    [ | reflexivity | simpl; rewrite length_replicate; apply size_2d
      | reflexivity | lia ].
  assert (Hwfm : wf d_mdl') by (unfold wf; now rewrite Hsm, size_2d).
  unfold nd_sub in Hres.
  rewrite broadcast2_same_shape in Hres by (done || congruence).
  injection Hres as <-. rewrite Hs.
  exists win, dw, dww, _d, ww, _w, u, l, infos.
  repeat split; try done.
  intros i Hi. apply Hrows. lia.
Qed.

End Filter2D.

Lemma index0_array_2d (a : ndarray) (t n i : nat) :
  shape a = [t; n] -> (i < t)%nat -> index0 a i = Ok (Nd [n] (row n i (flat a))).
Proof. destruct a as [s fl]. simpl. intros ->. apply index0_2d. Qed.

Lemma zeros_1d (n : nat) : zeros [n] = Nd [n] (replicate n C0).
Proof. unfold zeros, size. simpl. now rewrite Nat.mul_1_r. Qed.

Section SkippedRows.
Context `{Backend}.

(** C2. What the code does with a skipped row.  For 2-D input, a row [i]
    whose weight in the first reciprocal bin ([_w[i, 0]], the DC bin of the
    inverse FFT of weights times window) is below [skip_wgt] is not
    filtered: its model row is all zeros and its metadata entry is
    [{'skipped': True}], as specified; but its residual row is the original
    data row, without the weights, where the specification and the
    repository's [test_skip_wgt] require the data row times the weights. *)
Theorem skipped_row_residual_is_data (data wgts : ndarray)
    (filter_size : filter_arg) (real_delta tol : Q) (window : string)
    (skip_wgt : Q) (maxiter : Z) (gain : Q) (win_kwargs : dict)
    (t n i : nat) (mdl res : ndarray) (inf : info) :
  shape data = [t; n] -> wf data -> (i < t)%nat ->
  high_pass_fourier_filter data wgts filter_size real_delta tol window
                           skip_wgt maxiter gain win_kwargs = Ok (mdl, res, inf) ->
  low_weight wgts n window win_kwargs skip_wgt i = Ok true ->
  index0 mdl i = Ok (zeros [n]) /\
  (exists infos, inf = InfoList infos /\
                 infos !! i = Some {[ "skipped" := PyBool true ]}) /\
  index0 res i = index0 data i.
Proof.
  intros Hs Hwf Hi Hf Hlow.
  destruct (hpff_2d_inv _ _ _ _ _ _ _ _ _ _ _ _ _ _ _ Hs Hwf Hf)
    as (win & dw & dww & _d & ww & _w & u & l & infos & Hwin & _ & _ & _ &
        Hww & Hw & _ & -> & _ & Hsm & Hlm & -> & Hrows).
  destruct (Hrows i Hi) as (fl & irow & Hout & Hfl & Hirow).
  unfold low_weight, weight_spectrum in Hlow.
  rewrite Hwin in Hlow. simpl in Hlow. rewrite Hww in Hlow. simpl in Hlow.
  rewrite Hw in Hlow. simpl in Hlow.
  inv_bind Hlow. unfold index2 in E.
  unfold row_outcome in Hout. rewrite E in Hout. simpl in Hout.
  rewrite Hlow in Hout. simpl in Hout. injection Hout as <- <-.
  split; [| split].
  - rewrite (index0_array_2d mdl t n i) by done. now rewrite Hfl, zeros_1d.
  - eauto.
  - rewrite index0_2d, (index0_array_2d data t n i) by done.
    rewrite row_zip_with, Hfl, zip_with_Csub_zeros; [reflexivity|].
    apply (length_row n i t); [|done]. now rewrite <- size_2d, <- Hs.
Qed.

End SkippedRows.

(** ** The reference backend *)

Lemma length_dft (w : complex) (xs : list complex) :
  length (Reference.dft w xs) = length xs.
Proof. unfold Reference.dft. now rewrite length_fmap, length_seq. Qed.

#[global] Instance reference_backend_laws : @BackendLaws Reference.backend.
Proof.
  split; simpl.
  - intros n name kwargs win. unfold Reference.gen_window_none.
    case_decide; [|discriminate]. intros [= <-]. split; [reflexivity | now left].
  - intros l. unfold Reference.fft_small. now rewrite length_fmap, length_dft.
  - intros l. unfold Reference.ifft_small. now rewrite length_fmap, length_dft.
  - intros im ker area tol sd mi g mdl inf [= <- _]. split; [reflexivity|].
    intros _. unfold wf, zeros. simpl. now rewrite length_replicate.
Qed.

Lemma skipped_row_residual_is_data_witness :
  exists mdl res inf,
    @high_pass_fourier_filter Reference.backend
      Reference.ones_2x4 Reference.flagged_2x4 (Scalar 0) (1 # 40)
      (1 # 1000000) "none" (1 # 2) 0 (1 # 10) ∅ = Ok (mdl, res, inf) /\
    index0 mdl 0 = Ok (zeros [4%nat]) /\
    (exists infos, inf = InfoList infos /\
                   infos !! 0%nat = Some {[ "skipped" := PyBool true ]}) /\
    index0 res 0 = index0 Reference.ones_2x4 0.
Proof.
  eexists _, _, _. split; [vm_compute; reflexivity|].
  apply (@skipped_row_residual_is_data Reference.backend
           Reference.ones_2x4 Reference.flagged_2x4 (Scalar 0) (1 # 40)
           (1 # 1000000) "none" (1 # 2) 0 (1 # 10) ∅ 2 4 0);
    [reflexivity | reflexivity | lia | vm_compute; reflexivity
     | vm_compute; reflexivity].
Defined.

(** C2: the code does not meet the specification.  The residual of a
    skipped row is the data row, not the data row times the weights.  Here,
    as in [test_skip_wgt] but on four channels, the first row has the
    weights [0, 0, 0, 1], so its first reciprocal bin holds 1/4, below
    [skip_wgt = 1/2]; its residual is [1, 1, 1, 1] where data times weights
    is [0, 0, 0, 1]. *)
Lemma skipped_row_weighted_residual_counterexample :
  ~ (forall (data wgts : ndarray) (filter_size : filter_arg)
            (real_delta tol : Q) (window : string) (skip_wgt : Q)
            (maxiter : Z) (gain : Q) (win_kwargs : dict)
            (t n i : nat) (mdl res dw : ndarray) (inf : info),
       shape data = [t; n] -> shape wgts = [t; n] -> wf data -> wf wgts ->
       (i < t)%nat ->
       @high_pass_fourier_filter Reference.backend data wgts filter_size
         real_delta tol window skip_wgt maxiter gain win_kwargs
         = Ok (mdl, res, inf) ->
       @low_weight Reference.backend wgts n window win_kwargs skip_wgt i
         = Ok true ->
       nd_mul data wgts = Ok dw ->
       index0 mdl i = Ok (zeros [n]) /\
       (exists infos, inf = InfoList infos /\
                      infos !! i = Some {[ "skipped" := PyBool true ]}) /\
       index0 res i = index0 dw i).
Proof.
  intros Hclaim.
  destruct (@high_pass_fourier_filter Reference.backend
              Reference.ones_2x4 Reference.flagged_2x4 (Scalar 0) (1 # 40)
              (1 # 1000000) "none" (1 # 2) 0 (1 # 10) ∅)
    as [[[mdl res] inf]|e] eqn:Hf; [|vm_compute in Hf; discriminate Hf].
  destruct (nd_mul Reference.ones_2x4 Reference.flagged_2x4)
    as [dw|e] eqn:Hdw; [|vm_compute in Hdw; discriminate Hdw].
  assert (Hlow : @low_weight Reference.backend Reference.flagged_2x4 4
                   "none" ∅ (1 # 2) 0 = Ok true) by (vm_compute; reflexivity).
  destruct (Hclaim Reference.ones_2x4 Reference.flagged_2x4 _ _ _ _ _ _ _ _
              2%nat 4%nat 0%nat _ _ _ _
              eq_refl eq_refl eq_refl eq_refl ltac:(lia) Hf Hlow Hdw)
    as (_ & _ & Hres).
  vm_compute in Hf. injection Hf as <- <- <-.
  vm_compute in Hdw. injection Hdw as <-.
  vm_compute in Hres. discriminate Hres.
Qed.

(** ** The residual *)

Section Residual.
Context `{BackendLaws}.

Lemma hpff_residual (data wgts : ndarray) (filter_size : filter_arg)
    (real_delta tol : Q) (window : string) (skip_wgt : Q) (maxiter : Z)
    (gain : Q) (win_kwargs : dict) (mdl res : ndarray) (inf : info) :
  high_pass_fourier_filter data wgts filter_size real_delta tol window
                           skip_wgt maxiter gain win_kwargs = Ok (mdl, res, inf) ->
  nd_sub data mdl = Ok res.
Proof.
  intros Hf. unfold high_pass_fourier_filter in Hf.
  do 7 inv_bind Hf. inv_bind Hf as [u l] Hcw.
  inv_bind Hf as [d_mdl inf'] Hbr.
  inv_bind Hf as d_res Hres. now injection Hf as <- <- <-.
Qed.

Lemma hpff_1d_model (data wgts : ndarray) (filter_size : filter_arg)
    (real_delta tol : Q) (window : string) (skip_wgt : Q) (maxiter : Z)
    (gain : Q) (win_kwargs : dict) (n : nat) (mdl res : ndarray) (inf : info) :
  shape data = [n] -> wf data -> shape wgts = [n] -> wf wgts ->
  high_pass_fourier_filter data wgts filter_size real_delta tol window
                           skip_wgt maxiter gain win_kwargs = Ok (mdl, res, inf) ->
  shape mdl = [n] /\ wf mdl.
Proof.
  intros Hs Hwf Hsw Hwfw Hf. unfold high_pass_fourier_filter in Hf.
  unfold shape_last, ndim in Hf. rewrite Hs in Hf. simpl in Hf.
  inv_bind Hf as win Hg.
  apply gen_window_like in Hg as [Hwin Hshw].
  inv_bind Hf as dw Hdw. unfold nd_mul in Hdw.
  rewrite broadcast2_same_shape in Hdw by (done || congruence).
  injection Hdw as <-. rewrite Hs in Hf.
  inv_bind Hf as dww Hdww.
  rewrite (nd_mul_window _ win 0 n) in Hdww; [| | now left | done]; cycle 1.
  { unfold wf. simpl. rewrite length_zip_with, Hwf, Hwfw, Hs, Hsw.
    unfold size. simpl. lia. }
  injection Hdww as <-. simpl in Hf.
  inv_bind Hf as _d Hd. apply lastaxis_1d in Hd as [Hn ->].
  inv_bind Hf as ww Hww. inv_bind Hf as _w Hw.
  inv_bind Hf as [u l] Hcw.
  inv_bind Hf as [d_mdl inf'] Hbr.
  inv_bind Hf as d_res Hres. injection Hf as <- <- <-.
  inv_bind Hbr as [cl info0] Hcl.
  inv_bind Hbr as m Hm. inv_bind Hbr as info1 Hdel. injection Hbr as <- <-.
  apply clean_shape in Hcl as [Hscl Hwcl]. simpl in Hscl.
  destruct cl as [scl fcl]. simpl in Hscl. subst scl.
  apply lastaxis_1d in Hm as [_ ->]. split; [reflexivity|].
  unfold wf. simpl. rewrite fft_length, length_take.
  assert (Hc : wf (Nd [n] fcl)).
  { apply Hwcl. unfold wf. simpl. rewrite ifft_length, length_take.
    rewrite length_zip_with, length_zip_with, Hwf, Hwfw, Hs, Hsw.
    rewrite length_gather by (destruct Hshw as [-> | ->]; simpl; lia).
    unfold size. simpl. lia. }
  unfold wf in Hc. simpl in Hc. rewrite Hc. lia.
Qed.

(** C3. For valid 1-D or 2-D input (weights of the shape of the data), the
    returned residual is the data minus the returned model, element by
    element; weights and window are not applied to the difference. *)
Theorem residual_is_data_minus_model (data wgts : ndarray)
    (filter_size : filter_arg) (real_delta tol : Q) (window : string)
    (skip_wgt : Q) (maxiter : Z) (gain : Q) (win_kwargs : dict)
    (mdl res : ndarray) (inf : info) :
  wf data -> wf wgts -> shape wgts = shape data ->
  ndim data = 1%nat \/ ndim data = 2%nat ->
  high_pass_fourier_filter data wgts filter_size real_delta tol window
                           skip_wgt maxiter gain win_kwargs = Ok (mdl, res, inf) ->
  nd_sub data mdl = Ok res /\
  shape mdl = shape data /\
  res = Nd (shape data) (zip_with Csub (flat data) (flat mdl)).
Proof.
  intros Hwf Hwfw Hsw Hdim Hf.
  pose proof (hpff_residual _ _ _ _ _ _ _ _ _ _ _ _ _ Hf) as Hsub.
  split; [exact Hsub|].
  assert (Hm : shape mdl = shape data /\ wf mdl).
  { unfold ndim in Hdim. destruct (shape data) as [|n [|n' [|]]] eqn:Hs;
      simpl in Hdim; try (destruct Hdim; discriminate).
    - exact (hpff_1d_model data wgts filter_size real_delta tol window
               skip_wgt maxiter gain win_kwargs n mdl res inf
               Hs Hwf Hsw Hwfw Hf).
    - destruct (hpff_2d_inv _ _ _ _ _ _ _ _ _ _ _ _ _ _ _ Hs Hwf Hf)
        as (_ & _ & _ & _ & _ & _ & _ & _ & _ & _ & _ & _ & _ & _ & _ & _ &
            _ & _ & Hsm & Hlm & _).
      split; [done|]. unfold wf. now rewrite Hsm, size_2d. }
  destruct Hm as [Hsm Hwfm]. split; [exact Hsm|].
  unfold nd_sub in Hsub.
  rewrite broadcast2_same_shape in Hsub by done. now injection Hsub.
Qed.

End Residual.

(** ** Failures *)

Lemma broadcast2_raise (f : complex -> complex -> complex) (a b : ndarray)
    (e : exn) :
  broadcast2 f a b = Raise e -> e = ValueError.
Proof.
  unfold broadcast2. destruct (broadcast_shapes _ _); [discriminate|].
  now intros [= <-].
Qed.

Lemma lastaxis_raise (f : list complex -> list complex) (a : ndarray) (e : exn) :
  (1 <= ndim a)%nat -> lastaxis f a = Raise e -> e = ValueError.
Proof.
  unfold lastaxis, ndim. intros Hd.
  destruct (last (shape a)) as [[|n]|] eqn:El;
    [now intros [= <-] | discriminate |].
  apply last_None in El. rewrite El in Hd. simpl in Hd. lia.
Qed.

Lemma broadcast2_ndim (f : complex -> complex -> complex) (a b c : ndarray) :
  broadcast2 f a b = Ok c -> ndim c = (ndim a `max` ndim b)%nat.
Proof.
  unfold broadcast2, broadcast_shapes, ndim.
  destruct (bshape _ _) as [s|] eqn:E; [|discriminate]. intros [= <-]. simpl.
  apply bshape_length in E as [E _]. rewrite length_pad in E. lia.
Qed.

(** Three failures that the contract of the specification does not have:
    0-d data, weights of another shape that broadcast against the data, and
    a zero sample spacing. *)
Example zero_dim_data_raises_index_error :
  @high_pass_fourier_filter Reference.backend (scalar C1) (scalar C1)
    (Scalar 0) (1 # 40) (1 # 1000000) "none" (1 # 2) 0 (1 # 10) ∅
  = Raise IndexError.
Proof. reflexivity. Qed.

Example broadcast_weights_raise_index_error :
  @high_pass_fourier_filter Reference.backend
    (Nd [1; 4]%nat (Reference.reals [1; 1; 1; 1]%Q)) Reference.ones_1x4
    (Scalar 0) (1 # 40) (1 # 1000000) "none" (1 # 2) 0 (1 # 10) ∅
  = Raise IndexError.
Proof. vm_compute. reflexivity. Qed.

Example zero_spacing_raises_zero_division :
  @high_pass_fourier_filter Reference.backend
    Reference.ones_1x4 Reference.ones_1x4
    (Scalar 0) 0 (1 # 1000000) "none" (1 # 2) 0 (1 # 10) ∅
  = Raise ZeroDivisionError.
Proof. vm_compute. reflexivity. Qed.


(** ** Rows are filtered independently *)

Section Rowwise.
Context `{BackendLaws}.

Lemma length_taper (win : ndarray) (n : nat) :
  window_like n win -> length (gather win [n]) = n.
Proof.
  intros [_ Hs]. rewrite length_gather by (destruct Hs as [-> | ->]; simpl; lia).
  unfold size. simpl. lia.
Qed.

Lemma index0_spectrum (a win aw s : ndarray) (t n i : nat) :
  shape a = [t; n] -> wf a -> window_like n win ->
  nd_mul a win = Ok aw -> lastaxis ifft aw = Ok s -> (i < t)%nat ->
  index0 s i =
    Ok (Nd [n] (ifft (zip_with Cmul (row n i (flat a)) (gather win [n])))).
Proof.
  intros Hs Hwf Hwin Hmul Hlast Hi.
  pose proof (length_taper _ _ Hwin) as Htaper. destruct Hwin as [_ Hsw].
  rewrite (nd_mul_window a win t n) in Hmul by (done || now right).
  injection Hmul as <-. rewrite Hs in Hlast.
  apply lastaxis_2d in Hlast as [Hn ->].
  rewrite index0_2d by done. do 2 f_equal.
  assert (Hla : length (flat a) = (t * n)%nat) by (now rewrite <- size_2d, <- Hs).
  rewrite gather_window_2d by done.
  rewrite row_lastaxis; [| apply ifft_length | done | | done].
  - now rewrite row_zip_with, row_join_replicate.
  - rewrite length_zip_with, Hla.
    rewrite (length_join_same n) by now apply Forall_replicate.
    rewrite length_replicate. lia.
Qed.

(** Row [i] of the model, of the residual and of the metadata is
    [filter_one_row] applied to row [i] of the data and of the weights. *)
Lemma hpff_rowwise (data wgts : ndarray) (filter_size : filter_arg)
    (real_delta tol : Q) (window : string) (skip_wgt : Q) (maxiter : Z)
    (gain : Q) (win_kwargs : dict) (t n : nat) (mdl res : ndarray) (inf : info) :
  shape data = [t; n] -> wf data -> shape wgts = [t; n] -> wf wgts ->
  high_pass_fourier_filter data wgts filter_size real_delta tol window
                           skip_wgt maxiter gain win_kwargs = Ok (mdl, res, inf) ->
  exists win u l infos,
    gen_window n window win_kwargs = Ok win /\
    calc_width filter_size real_delta (Z.of_nat n) = Ok (u, l) /\
    inf = InfoList infos /\ length infos = t /\
    forall i, (i < t)%nat ->
      exists fl irow,
        filter_one_row (row n i (flat data)) (row n i (flat wgts)) win
          (set_slice u l 0 (replicate n 1)) tol skip_wgt maxiter gain
          = Ok (fl, irow) /\
        index0 mdl i = Ok (Nd [n] fl) /\
        index0 res i = Ok (Nd [n] (zip_with Csub (row n i (flat data)) fl)) /\
        infos !! i = Some irow.
Proof.
  intros Hs Hwf Hsw Hwfw Hf.
  destruct (hpff_2d_inv _ _ _ _ _ _ _ _ _ _ _ _ _ _ _ Hs Hwf Hf)
    as (win & dw & dww & _d & ww & _w & u & l & infos & Hwin & Hdw & Hdww &
        Hd & Hww & Hw & Hcw & -> & Hli & Hsm & Hlm & -> & Hrows).
  exists win, u, l, infos. repeat split; try done.
  intros i Hi. destruct (Hrows i Hi) as (fl & irow & Hout & Hfl & Hirow).
  exists fl, irow.
  pose proof (gen_window_like _ _ _ _ Hwin) as Hlike.
  assert (Hld : length (flat data) = (t * n)%nat) by (now rewrite <- size_2d, <- Hs).
  unfold nd_mul in Hdw.
  rewrite broadcast2_same_shape in Hdw by (done || congruence).
  injection Hdw as <-. rewrite Hs in Hdww.
  assert (Hwfdw : wf (Nd [t; n] (zip_with Cmul (flat data) (flat wgts)))).
  { unfold wf. cbn [shape flat]. rewrite length_zip_with, Hwf, Hwfw, Hs, Hsw. lia. }
  rewrite (index0_spectrum (Nd [t; n] (zip_with Cmul (flat data) (flat wgts)))
             win dww _d t n i eq_refl Hwfdw Hlike Hdww Hd Hi) in Hout.
  rewrite (index0_spectrum wgts win ww _w t n i Hsw Hwfw Hlike Hww Hw Hi)
    in Hout.
  simpl flat in Hout. rewrite row_zip_with in Hout.
  split; [| split; [| split]]; try done.
  - unfold filter_one_row. now rewrite (length_row n i t).
  - rewrite (index0_array_2d mdl t n i) by done. now rewrite Hfl.
  - rewrite index0_2d by done. now rewrite row_zip_with, Hfl.
Qed.

Lemma index0_row_eq (a b : ndarray) (t t' n i : nat) :
  shape a = [t; n] -> shape b = [t'; n] -> (i < t)%nat -> (i < t')%nat ->
  index0 a i = index0 b i -> row n i (flat a) = row n i (flat b).
Proof.
  intros Ha Hb Hi Hi'.
  rewrite (index0_array_2d a t n i), (index0_array_2d b t' n i) by done.
  now intros [= ->].
Qed.

(** C8. For 2-D input the filter is row-wise noninterfering: two inputs that
    agree on row [i] of the data and of the weights, and on the scalar
    parameters, give outputs that agree on row [i] of the model, of the
    residual and of the metadata list, whatever the other rows hold and
    however many there are. *)
Theorem rowwise_noninterference (data1 wgts1 data2 wgts2 : ndarray)
    (filter_size : filter_arg) (real_delta tol : Q) (window : string)
    (skip_wgt : Q) (maxiter : Z) (gain : Q) (win_kwargs : dict)
    (t1 t2 n i : nat)
    (mdl1 res1 : ndarray) (inf1 : info) (mdl2 res2 : ndarray) (inf2 : info) :
  shape data1 = [t1; n] -> wf data1 -> shape wgts1 = [t1; n] -> wf wgts1 ->
  shape data2 = [t2; n] -> wf data2 -> shape wgts2 = [t2; n] -> wf wgts2 ->
  (i < t1)%nat -> (i < t2)%nat ->
  index0 data1 i = index0 data2 i -> index0 wgts1 i = index0 wgts2 i ->
  high_pass_fourier_filter data1 wgts1 filter_size real_delta tol window
                           skip_wgt maxiter gain win_kwargs
    = Ok (mdl1, res1, inf1) ->
  high_pass_fourier_filter data2 wgts2 filter_size real_delta tol window
                           skip_wgt maxiter gain win_kwargs
    = Ok (mdl2, res2, inf2) ->
  index0 mdl1 i = index0 mdl2 i /\
  index0 res1 i = index0 res2 i /\
  exists infos1 infos2 irow,
    inf1 = InfoList infos1 /\ inf2 = InfoList infos2 /\
    infos1 !! i = Some irow /\ infos2 !! i = Some irow.
Proof.
  intros Hs1 Hwf1 Hsw1 Hwfw1 Hs2 Hwf2 Hsw2 Hwfw2 Hi1 Hi2 Hd Hw Hf1 Hf2.
  destruct (hpff_rowwise _ _ _ _ _ _ _ _ _ _ _ _ _ _ _ Hs1 Hwf1 Hsw1 Hwfw1 Hf1)
    as (win & u & l & infos1 & Hwin & Hcw & -> & _ & Hrows1).
  destruct (hpff_rowwise _ _ _ _ _ _ _ _ _ _ _ _ _ _ _ Hs2 Hwf2 Hsw2 Hwfw2 Hf2)
    as (win' & u' & l' & infos2 & Hwin' & Hcw' & -> & _ & Hrows2).
  rewrite Hwin in Hwin'. injection Hwin' as <-.
  rewrite Hcw in Hcw'. injection Hcw' as <- <-.
  destruct (Hrows1 i Hi1) as (fl & irow & Hrow1 & Hm1 & Hr1 & Hinfo1).
  destruct (Hrows2 i Hi2) as (fl' & irow' & Hrow2 & Hm2 & Hr2 & Hinfo2).
  rewrite <- (index0_row_eq data1 data2 t1 t2 n i) in Hrow2, Hr2 by done.
  rewrite <- (index0_row_eq wgts1 wgts2 t1 t2 n i) in Hrow2 by done.
  rewrite Hrow1 in Hrow2. injection Hrow2 as <- <-.
  split; [congruence|]. split; [congruence|].
  exists infos1, infos2, irow. done.
Qed.

End Rowwise.

(** ** The theorems on concrete inputs *)

Lemma residual_is_data_minus_model_witness :
  exists mdl res inf,
    @high_pass_fourier_filter Reference.backend
      Reference.ones_2x4 Reference.flagged_2x4 (Scalar 0) (1 # 40)
      (1 # 1000000) "none" (1 # 2) 0 (1 # 10) ∅ = Ok (mdl, res, inf) /\
    nd_sub Reference.ones_2x4 mdl = Ok res /\
    shape mdl = shape Reference.ones_2x4 /\
    res = Nd (shape Reference.ones_2x4)
             (zip_with Csub (flat Reference.ones_2x4) (flat mdl)).
Proof.
  eexists _, _, _. split; [vm_compute; reflexivity|].
  eapply (@residual_is_data_minus_model Reference.backend reference_backend_laws
           Reference.ones_2x4 Reference.flagged_2x4 (Scalar 0) (1 # 40)
           (1 # 1000000) "none" (1 # 2) 0 (1 # 10) ∅);
    [reflexivity | reflexivity | reflexivity | right; reflexivity
     | vm_compute; reflexivity].
Defined.

Lemma rowwise_noninterference_witness :
  exists mdl1 res1 inf1 mdl2 res2 inf2,
    @high_pass_fourier_filter Reference.backend
      Reference.ramp_3x4 Reference.flagged_3x4 (Scalar 0) (1 # 40)
      (1 # 1000000) "none" (1 # 2) 0 (1 # 10) ∅ = Ok (mdl1, res1, inf1) /\
    @high_pass_fourier_filter Reference.backend
      Reference.ones_2x4 Reference.flagged_2x4 (Scalar 0) (1 # 40)
      (1 # 1000000) "none" (1 # 2) 0 (1 # 10) ∅ = Ok (mdl2, res2, inf2) /\
    index0 mdl1 1 = index0 mdl2 1 /\
    index0 res1 1 = index0 res2 1 /\
    exists infos1 infos2 irow,
      inf1 = InfoList infos1 /\ inf2 = InfoList infos2 /\
      infos1 !! 1%nat = Some irow /\ infos2 !! 1%nat = Some irow.
Proof.
  eexists _, _, _, _, _, _.
  split; [vm_compute; reflexivity|]. split; [vm_compute; reflexivity|].
  eapply (@rowwise_noninterference Reference.backend reference_backend_laws
           Reference.ramp_3x4 Reference.flagged_3x4
           Reference.ones_2x4 Reference.flagged_2x4 (Scalar 0) (1 # 40)
           (1 # 1000000) "none" (1 # 2) 0 (1 # 10) ∅ 3 2 4 1);
    [reflexivity | reflexivity | reflexivity | reflexivity
     | reflexivity | reflexivity | reflexivity | reflexivity
     | lia | lia | reflexivity | reflexivity
     | vm_compute; reflexivity | vm_compute; reflexivity].
Defined.

(** A spectrum that is flagged except for its last channel, so that the
    first reciprocal bin of [_w] holds 1/4, below [skip_wgt = 1/2]: it is
    filtered all the same, and its model is not zero. *)
Lemma skip_wgt_unused_1d_witness :
  exists res inf,
    @high_pass_fourier_filter Reference.backend_in_area
      Reference.ones_1x4 Reference.flagged_1x4 (Scalar 0) (1 # 40)
      (1 # 1000000) "none" (1 # 2) 0 (1 # 10) ∅
    = Ok (Nd [4%nat] (Reference.reals [1 # 4; 1 # 4; 1 # 4; 1 # 4]%Q),
          res, inf) /\
    @high_pass_fourier_filter Reference.backend_in_area
      Reference.ones_1x4 Reference.flagged_1x4 (Scalar 0) (1 # 40)
      (1 # 1000000) "none" (1 # 2) 0 (1 # 10) ∅ =
    @high_pass_fourier_filter Reference.backend_in_area
      Reference.ones_1x4 Reference.flagged_1x4 (Scalar 0) (1 # 40)
      (1 # 1000000) "none" 2 0 (1 # 10) ∅ /\
    exists (_d _w _d_cl : ndarray) (info_cl : dict),
      @weight_spectrum Reference.backend_in_area
        Reference.flagged_1x4 4 "none" ∅ = Ok _w /\
      (index0 _w 0 ≫= fun w0 => lt_scalar w0 (1 # 2)) = Ok true /\
      @clean Reference.backend_in_area _d _w [1; 0; 0; 0]
        (1 # 1000000) false 0 (1 # 10) = Ok (_d_cl, info_cl) /\
      lastaxis (@fft Reference.backend_in_area) _d_cl
      = Ok (Nd [4%nat] (Reference.reals [1 # 4; 1 # 4; 1 # 4; 1 # 4]%Q)) /\
      inf = InfoDict (delete "res" info_cl).
Proof.
  destruct (@skip_wgt_unused_1d Reference.backend_in_area
              Reference.ones_1x4 Reference.flagged_1x4 (Scalar 0) (1 # 40)
              (1 # 1000000) "none" (1 # 2) 2 0 (1 # 10) ∅ eq_refl)
    as [Heq Hinv].
  eexists _, _. split; [vm_compute; reflexivity|].
  split; [exact Heq|].
  edestruct Hinv as (nchan & _d & _w & u & l & cl & icl & Hn & Hd & Hw & Hcw
                     & Hcl & Hm & _ & Hinf & _); [vm_compute; reflexivity|].
  injection Hn as <-. vm_compute in Hcw. injection Hcw as <- <-.
  exists _d, _w, cl, icl. split; [exact Hw|].
  split; [| split; [exact Hcl | split; [exact Hm | exact Hinf]]].
  vm_compute in Hw. injection Hw as <-. vm_compute. reflexivity.
Defined.

(** ** The filter returns on valid input *)

Lemma broadcast_to_1d (n : nat) (fl : list complex) :
  exists fl', broadcast_to (Nd [n] fl) [n] = Some fl' /\ length fl' = n.
Proof.
  unfold broadcast_to.
  assert (Hstrip : strip_ones 1 [n] = [n]) by (destruct n as [|[|n]]; reflexivity).
  simpl length. simpl shape. rewrite Hstrip.
  rewrite decide_True by apply broadcast_shapes_refl.
  eexists. split; [reflexivity|].
  rewrite length_gather by (simpl; lia). unfold size. simpl. lia.
Qed.

Lemma index0_1d (n j : nat) (fl : list complex) :
  (j < n)%nat -> index0 (Nd [n] fl) j = Ok (Nd [] (row 1 j fl)).
Proof. intros Hj. unfold index0. simpl. now rewrite decide_True. Qed.

Section Returns.
Context `{BackendLaws}.
Hypothesis Hclean : clean_total.

Lemma filter_row_returns (_d _w : ndarray) (area : list Z) (tol skip_wgt : Q)
    (maxiter : Z) (gain : Q) (t n i : nat) (m : ndarray) (infos : list dict) :
  shape _d = [t; n] -> shape _w = [t; n] -> length (flat _w) = (t * n)%nat ->
  shape m = [t; n] -> length (flat m) = (t * n)%nat ->
  (0 < n)%nat -> (i < t)%nat ->
  exists m' infos',
    filter_row _d _w area tol skip_wgt maxiter gain i (m, infos) = Ok (m', infos') /\
    shape m' = [t; n] /\ length (flat m') = (t * n)%nat.
Proof.
  intros Hsd Hsw Hlw Hsm Hlm Hn Hi. unfold filter_row, index2.
  rewrite !(index0_array_2d _w t n i) by done. simpl.
  rewrite index0_1d by done. simpl.
  assert (Hrow : length (row n i (flat _w)) = n) by now apply (length_row n i t).
  destruct (row n i (flat _w)) as [|z r] eqn:Er; [simpl in Hrow; lia|].
  unfold lt_scalar, row. simpl.
  assert (Hset : forall v fl, broadcast_to v [n] = Some fl -> length fl = n ->
            exists m', setitem0 m i v = Ok m' /\
              shape m' = [t; n] /\ length (flat m') = (t * n)%nat).
  { intros v fl Hv Hfl. unfold setitem0. rewrite Hsm.
    rewrite decide_True by done. rewrite Hv. 
    eexists. split; [reflexivity|]. split; [done|]. simpl.
    rewrite Nat.mul_1_r. now apply length_row_alter. }
  destruct (Clt z skip_wgt).
  - destruct (Hset _ _ (broadcast_to_zero n) (length_replicate _ _))
      as (m' & -> & Hs' & Hl'). simpl. eauto.
  - rewrite (index0_array_2d _d t n i) by done. simpl.
    destruct (Hclean (Nd [n] (row n i (flat _d))) (Nd [n] (z :: r))
                area tol false maxiter gain) as (cl & inf & Hcl & Hres).
    rewrite Hcl. simpl.
    apply clean_shape in Hcl as [Hscl _]. simpl in Hscl.
    destruct cl as [scl fcl]. simpl in Hscl. subst scl.
    unfold lastaxis. simpl. destruct n as [|n']; [lia|]. simpl.
    rewrite app_nil_r.
    destruct (broadcast_to_1d (S n') (fft (take (S n') fcl))) as (fl & Hb & Hfl).
    destruct (Hset _ _ Hb Hfl) as (m' & -> & Hs' & Hl').
    simpl. unfold dict_del. destruct Hres as [v ->]. simpl. eauto.
Qed.

Lemma for_each_returns (_d _w : ndarray) (area : list Z) (tol skip_wgt : Q)
    (maxiter : Z) (gain : Q) (t n cnt : nat) :
  shape _d = [t; n] -> shape _w = [t; n] -> length (flat _w) = (t * n)%nat ->
  (0 < n)%nat ->
  forall (k : nat) (m : ndarray) (infos : list dict),
  shape m = [t; n] -> length (flat m) = (t * n)%nat -> (k + cnt <= t)%nat ->
  exists m' infos',
    for_each (filter_row _d _w area tol skip_wgt maxiter gain) (seq k cnt)
             (m, infos) = Ok (m', infos').
Proof.
  intros Hsd Hsw Hlw Hn.
  induction cnt as [|cnt IH]; intros k m infos Hsm Hlm Hle; [simpl; eauto|].
  change (seq k (S cnt)) with (k :: seq (S k) cnt). cbn [for_each].
  destruct (filter_row_returns _d _w area tol skip_wgt maxiter gain t n k m infos)
    as (m1 & infos1 & -> & Hs1 & Hl1); [done .. | lia |].
  simpl. apply IH; (done || lia).
Qed.

End Returns.


Lemma lastaxis_2d_ok (f : list complex -> list complex) (t n : nat)
    (fl : list complex) :
  (0 < n)%nat ->
  lastaxis f (Nd [t; n] fl)
  = Ok (Nd [t; n] (mjoin (f <$> reshape (replicate t n) fl))).
Proof.
  intros Hn. unfold lastaxis. simpl. destruct n as [|n]; [lia|].
  now rewrite Nat.mul_1_r.
Qed.

Section ReturnsFilter.
Context `{BackendLaws}.
Hypothesis Hclean : clean_total.

(** For valid 2-D input, a scalar half-width, a window that is generated
    and a sample spacing that is not zero, the filter returns. *)
Lemma hpff_2d_returns (data wgts : ndarray) (filter_size real_delta tol : Q)
    (window : string) (skip_wgt : Q) (maxiter : Z) (gain : Q)
    (win_kwargs : dict) (t n : nat) (win : ndarray) :
  shape data = [t; n] -> wf data -> shape wgts = [t; n] -> wf wgts ->
  gen_window n window win_kwargs = Ok win ->
  ~ (real_delta * inject_Z (Z.of_nat n) == 0)%Q ->
  exists mdl res inf,
    high_pass_fourier_filter data wgts (Scalar filter_size) real_delta tol
      window skip_wgt maxiter gain win_kwargs = Ok (mdl, res, inf).
Proof.
  intros Hs Hwf Hsw Hwfw Hwin Hnz.
  assert (Hn : (0 < n)%nat).
  { destruct n; [|lia]. exfalso. apply Hnz. simpl. ring. }
  pose proof (gen_window_like _ _ _ _ Hwin) as [Hwfwin Hswin].
  assert (Hld : length (flat data) = (t * n)%nat) by (now rewrite <- size_2d, <- Hs).
  assert (Hlw : length (flat wgts) = (t * n)%nat) by (now rewrite <- size_2d, <- Hsw).
  assert (Htaper : length (gather win [t; n]) = (t * n)%nat).
  { rewrite length_gather by (destruct Hswin as [-> | ->]; simpl; lia).
    apply size_2d. }
  assert (Hdw : nd_mul data wgts
                = Ok (Nd [t; n] (zip_with Cmul (flat data) (flat wgts)))).
  { unfold nd_mul. rewrite broadcast2_same_shape by (done || congruence).
    now rewrite Hs. }
  set (dw := Nd [t; n] (zip_with Cmul (flat data) (flat wgts))) in *.
  assert (Hwfdw : wf dw).
  { unfold wf, dw. cbn [shape flat]. rewrite length_zip_with, size_2d. lia. }
  pose proof (nd_mul_window dw win t n Hwfdw (or_intror eq_refl) Hswin) as Hdww.
  pose proof (nd_mul_window wgts win t n Hwfw (or_intror Hsw) Hswin) as Hww.
  cbn [shape flat dw] in Hdww. rewrite Hsw in Hww.
  unfold high_pass_fourier_filter, shape_last, shape_first, ndim.
  rewrite Hs. simpl. rewrite Hwin. simpl. rewrite Hdw. simpl.
  fold dw. rewrite Hdww. simpl.
  rewrite lastaxis_2d_ok by done. simpl.
  rewrite Hww. simpl. rewrite lastaxis_2d_ok by done. simpl.
  rewrite calc_width_scalar by done. simpl.
  set (w := py_round _). set (area := set_slice _ _ _ _).
  edestruct (for_each_returns Hclean) as (m' & infos' & Hloop); cycle -1.
  { rewrite Hloop. simpl.
    apply (for_each_rows _ _ _ _ _ _ _ t n) in Hloop
      as (Hsm & Hlm & _);
      [ | reflexivity | simpl; rewrite length_replicate; apply size_2d
        | reflexivity | lia ].
    unfold nd_sub. rewrite broadcast2_same_shape;
      [simpl; eauto | done | unfold wf; now rewrite Hsm, size_2d | congruence]. }
  all: try reflexivity; try done; try lia.
  - simpl. apply length_lastaxis_flat; [apply ifft_length | done |].
    rewrite length_zip_with. lia.
  - simpl. rewrite length_replicate. apply size_2d.
Qed.

Lemma lastaxis_1d_ok (f : list complex -> list complex) (n : nat)
    (fl : list complex) :
  (0 < n)%nat -> lastaxis f (Nd [n] fl) = Ok (Nd [n] (f (take n fl))).
Proof.
  intros Hn. unfold lastaxis. simpl. destruct n as [|n]; [lia|].
  now rewrite app_nil_r.
Qed.

(** Likewise for valid 1-D input. *)
Lemma hpff_1d_returns (data wgts : ndarray) (filter_size real_delta tol : Q)
    (window : string) (skip_wgt : Q) (maxiter : Z) (gain : Q)
    (win_kwargs : dict) (n : nat) (win : ndarray) :
  shape data = [n] -> wf data -> shape wgts = [n] -> wf wgts ->
  gen_window n window win_kwargs = Ok win ->
  ~ (real_delta * inject_Z (Z.of_nat n) == 0)%Q ->
  exists mdl res inf,
    high_pass_fourier_filter data wgts (Scalar filter_size) real_delta tol
      window skip_wgt maxiter gain win_kwargs = Ok (mdl, res, inf).
Proof.
  intros Hs Hwf Hsw Hwfw Hwin Hnz.
  assert (Hn : (0 < n)%nat).
  { destruct n; [|lia]. exfalso. apply Hnz. simpl. ring. }
  pose proof (gen_window_like _ _ _ _ Hwin) as Hlike.
  pose proof (length_taper _ _ Hlike) as Htaper. destruct Hlike as [_ Hswin].
  assert (Hld : length (flat data) = n).
  { rewrite Hwf, Hs. unfold size. simpl. lia. }
  assert (Hlw : length (flat wgts) = n).
  { rewrite Hwfw, Hsw. unfold size. simpl. lia. }
  assert (Hdw : nd_mul data wgts
                = Ok (Nd [n] (zip_with Cmul (flat data) (flat wgts)))).
  { unfold nd_mul. rewrite broadcast2_same_shape by (done || congruence).
    now rewrite Hs. }
  set (dw := Nd [n] (zip_with Cmul (flat data) (flat wgts))) in *.
  assert (Hwfdw : wf dw).
  { unfold wf, dw, size. cbn [shape flat foldr]. rewrite length_zip_with. lia. }
  pose proof (nd_mul_window dw win 0 n Hwfdw (or_introl eq_refl) Hswin) as Hdww.
  pose proof (nd_mul_window wgts win 0 n Hwfw (or_introl Hsw) Hswin) as Hww.
  cbn [shape flat dw] in Hdww. rewrite Hsw in Hww.
  unfold high_pass_fourier_filter, shape_last, ndim.
  rewrite Hs. simpl. rewrite Hwin. simpl. rewrite Hdw. simpl.
  fold dw. rewrite Hdww. simpl.
  rewrite lastaxis_1d_ok by done. simpl.
  rewrite Hww. simpl. rewrite lastaxis_1d_ok by done. simpl.
  rewrite calc_width_scalar by done. simpl.
  set (w := py_round _). set (area := set_slice _ _ _ _).
  set (_d := Nd [n] _). set (_w := Nd [n] _).
  destruct (Hclean _d _w area tol false maxiter gain) as (cl & inf & Hcl & [v Hres]).
  rewrite Hcl. simpl.
  apply clean_shape in Hcl as [Hscl Hwfcl]. simpl in Hscl.
  assert (Hwfc : wf cl).
  { apply Hwfcl. unfold wf, _d, size. cbn [shape flat foldr].
    rewrite ifft_length, length_take, !length_zip_with. lia. }
  destruct cl as [scl fcl]. simpl in Hscl. subst scl.
  rewrite lastaxis_1d_ok by done. simpl.
  unfold dict_del. rewrite Hres. simpl.
  unfold nd_sub. rewrite broadcast2_same_shape; [simpl; eauto | done | | done].
  unfold wf, size in *. cbn [shape flat foldr] in *.
  rewrite fft_length, length_take. lia.
Qed.

End ReturnsFilter.

Lemma reference_clean_total : @clean_total Reference.backend.
Proof.
  intros im ker area tol sd mi g. eexists _, _. split; [reflexivity|].
  eexists. reflexivity.
Qed.

(** ** The error contract *)

Section ErrorContract.
Context `{Backend}.


End ErrorContract.


(** * Further properties of the module *)

(** ** Rounding to the nearest bin *)

Lemma py_round_cases (x : Q) :
  let f := Qfloor x in
  (inject_Z f <= x)%Q /\ (x < inject_Z f + 1)%Q /\
  ((py_round x = f /\ (x - inject_Z f <= 1 # 2)%Q) \/
   (py_round x = f + 1 /\ (1 # 2 <= x - inject_Z f)%Q)).
Proof.
  intros f. pose proof (Qfloor_le x) as Hlo. pose proof (Qlt_floor x) as Hhi.
  rewrite inject_Z_plus in Hhi. fold f in Hlo, Hhi.
  split; [exact Hlo|]. split; [exact Hhi|].
  unfold py_round. fold f.
  destruct (x - inject_Z f ?= 1 # 2)%Q eqn:E.
  - apply Qeq_alt in E. destruct (Z.even f); [left | right]; split; (done || lra).
  - apply Qlt_alt in E. left. split; [done | lra].
  - apply Qgt_alt in E. right. split; [done | lra].
Qed.

Lemma py_round_error (x : Q) :
  (x - (1 # 2) <= inject_Z (py_round x) <= x + (1 # 2))%Q.
Proof.
  destruct (py_round_cases x) as (Hlo & Hhi & [[-> H]|[-> H]]);
    rewrite ?inject_Z_plus; change (inject_Z 1) with 1%Q;
    remember (Qfloor x) as f; split; lra.
Qed.

Lemma py_round_mono (x y : Q) : (x <= y)%Q -> py_round x <= py_round y.
Proof.
  intros Hxy.
  pose proof (Qfloor_resp_le _ _ Hxy) as Hf.
  destruct (Z.eq_dec (Qfloor x) (Qfloor y)) as [Heq|Hne].
  - unfold py_round. rewrite Heq. remember (Qfloor y) as f.
    destruct (x - inject_Z f ?= 1 # 2)%Q eqn:Ex,
             (y - inject_Z f ?= 1 # 2)%Q eqn:Ey;
      first [apply Qeq_alt in Ex | apply Qlt_alt in Ex | apply Qgt_alt in Ex];
      first [apply Qeq_alt in Ey | apply Qlt_alt in Ey | apply Qgt_alt in Ey];
      try destruct (Z.even f); try lia; exfalso; lra.
  - destruct (py_round_cases x) as (_ & _ & Hx).
    destruct (py_round_cases y) as (_ & _ & Hy).
    assert (Qfloor x + 1 <= Qfloor y) by lia.
    destruct Hx as [[-> _]|[-> _]], Hy as [[-> _]|[-> _]]; lia.
Qed.

Lemma py_round_nonneg (x : Q) : (0 <= x)%Q -> 0 <= py_round x.
Proof. intros Hx. apply (py_round_mono 0 x Hx). Qed.

Lemma py_round_integer (z : Z) : py_round (inject_Z z) = z.
Proof.
  destruct (py_round_cases (inject_Z z)) as (_ & _ & [[-> _]|[_ H]]);
    rewrite Qfloor_Z in *; [reflexivity | exfalso].
  remember (inject_Z z) as q. lra.
Qed.

(** ** More on [calc_width] and [wedge_width] *)

(** X1. The failures of [calc_width] on Python floats, in the order in
    which they arise: [OverflowError] when [nsamples] is beyond the range
    of the floats; [ZeroDivisionError] when [real_delta * nsamples] is zero,
    whatever [filter_size] is (the reciprocal is taken first); [TypeError]
    when [filter_size] is a sequence; [ZeroDivisionError] when the bin
    width is zero (the product has overflowed to an infinity);
    [ValueError] when the quotient is NaN; and [OverflowError] when the
    quotient is an infinity.  There are no others. *)
Theorem calc_width_float_failures (filter_size : Binary64.filter_arg)
    (real_delta : spec_float) (nsamples : Z) (e : exn) :
  Binary64.calc_width filter_size real_delta nsamples = Raise e <->
  (Binary64.is_finite (Binary64.of_int nsamples) = false /\
   e = OverflowError) \/
  (Binary64.is_finite (Binary64.of_int nsamples) = true /\
   ((Binary64.is_zero (Binary64.product real_delta nsamples) = true /\
     e = ZeroDivisionError) \/
    (Binary64.is_zero (Binary64.product real_delta nsamples) = false /\
     (((exists xs, filter_size = Binary64.Sequence xs) /\ e = TypeError) \/
      (exists fs, filter_size = Binary64.Scalar fs /\
         ((Binary64.is_zero (Binary64.bin_width real_delta nsamples) = true /\
           e = ZeroDivisionError) \/
          (Binary64.is_zero (Binary64.bin_width real_delta nsamples) = false /\
           ((Binary64.quotient fs real_delta nsamples = S754_nan /\
             e = ValueError) \/
            ((exists s, Binary64.quotient fs real_delta nsamples
                        = S754_infinity s) /\
             e = OverflowError))))))))).
Proof.
  unfold Binary64.quotient, Binary64.bin_width, Binary64.product.
  unfold Binary64.calc_width, Binary64.int_to_float.
  destruct (Binary64.is_finite (Binary64.of_int nsamples)) eqn:Hn.
  2:{ rewrite Raise_bind. split.
      - intros [= <-]. left. done.
      - intros [[_ ->]|[? _]]; [reflexivity | discriminate]. }
  rewrite Ok_bind. unfold Binary64.float_truediv at 1.
  destruct (Binary64.is_zero
              (Binary64.mul real_delta (Binary64.of_int nsamples))) eqn:Hp.
  { rewrite Raise_bind. split.
    - intros [= <-]. right. split; [done|]. left. done.
    - intros [[? _]|[_ [[_ ->]|[? _]]]]; (reflexivity || discriminate). }
  rewrite Ok_bind.
  destruct filter_size as [fs|xs]; unfold Binary64.truediv.
  2:{ rewrite Raise_bind. split.
      - intros [= <-]. right. split; [done|]. right. split; [done|]. left. eauto.
      - intros [[? _]|[_ [[? _]|[_ [[_ ->]|(fs & ? & _)]]]]];
          (reflexivity || discriminate). }
  unfold Binary64.float_truediv.
  destruct (Binary64.is_zero
              (Binary64.div Binary64.one
                 (Binary64.mul real_delta (Binary64.of_int nsamples)))) eqn:Hb.
  { rewrite Raise_bind. split.
    - intros [= <-]. right. split; [done|]. right. split; [done|]. right.
      exists fs. split; [done|]. left. done.
    - intros [[? _]|[_ [[? _]|[_ [[[xs ?] _]|(fs' & [= <-] & [[_ ->]|[? _]])]]]]];
          (reflexivity || discriminate). }
  rewrite Ok_bind. unfold Binary64.round.
  destruct (Binary64.div fs _) as [s|s| |s m x] eqn:Eq.
  - rewrite Ok_bind. split; [discriminate|].
    intros [[? _]|[_ [[? _]|[_ [[[xs ?] _]|(fs' & [= <-] & [[? _]|[_ [[? _]|[[s' ?] _]]]])]]]]];
      discriminate || congruence.
  - rewrite Raise_bind. split.
    + intros [= <-]. right. split; [done|]. right. split; [done|]. right.
      exists fs. split; [done|]. right. split; [done|]. right. eauto.
    + intros [[? _]|[_ [[? _]|[_ [[[xs ?] _]|(fs' & [= <-] & [[? _]|[_ [[? _]|[_ ->]]]])]]]]];
        first [reflexivity | discriminate | congruence].
  - rewrite Raise_bind. split.
    + intros [= <-]. right. split; [done|]. right. split; [done|]. right.
      exists fs. split; [done|]. right. split; [done|]. left. done.
    + intros [[? _]|[_ [[? _]|[_ [[[xs ?] _]|(fs' & [= <-] & [[? _]|[_ [[_ ->]|[[s' ?] _]]]])]]]]];
        first [reflexivity | discriminate | congruence].
  - rewrite Ok_bind. split; [discriminate|].
    intros [[? _]|[_ [[? _]|[_ [[[xs ?] _]|(fs' & [= <-] & [[? _]|[_ [[? _]|[[s' ?] _]]]])]]]]];
      discriminate || congruence.
Qed.

(** One input for each failure: [calc_width(1., 1., 2**1024)],
    [calc_width((1., 2.), 0., 10)], [calc_width((1., 2.), 1., 10)],
    [calc_width(1., float('inf'), 10)], [calc_width(1., float('nan'), 10)]
    and [calc_width(float('inf'), 1., 10)]. *)
Example calc_width_float_failures_examples :
  let seq12 := Binary64.Sequence [Binary64.of_int 1; Binary64.of_int 2] in
  Binary64.calc_width (Binary64.Scalar Binary64.one) Binary64.one (2 ^ 1024)
    = Raise OverflowError /\
  Binary64.calc_width seq12 (S754_zero false) 10 = Raise ZeroDivisionError /\
  Binary64.calc_width seq12 Binary64.one 10 = Raise TypeError /\
  Binary64.calc_width (Binary64.Scalar Binary64.one) (S754_infinity false) 10
    = Raise ZeroDivisionError /\
  Binary64.calc_width (Binary64.Scalar Binary64.one) S754_nan 10
    = Raise ValueError /\
  Binary64.calc_width (Binary64.Scalar (S754_infinity false)) Binary64.one 10
    = Raise OverflowError.
Proof. vm_compute. auto 10. Qed.

Lemma nonneg_product (fs rd : Q) (n : Z) :
  (0 <= fs)%Q -> (0 < rd)%Q -> 0 < n -> (0 <= fs * rd * inject_Z n)%Q.
Proof.
  intros Hfs Hrd Hn. rewrite <- Qmult_assoc. apply Qmult_le_0_compat; [done|].
  apply Qlt_le_weak, Qmult_lt_0_compat; [done|].
  change 0%Q with (inject_Z 0). now rewrite <- Zlt_Qlt.
Qed.

(** X2. For a half-width [filter_size >= 0] the thresholds are one of two
    kinds: [(1, nsamples)], or [(u, 1 - u)] with [u > 1], so that [lthresh]
    is negative unless it is [nsamples]. *)
Theorem calc_width_threshold_pair (fs rd : Q) (n : Z) :
  (0 <= fs)%Q -> (0 < rd)%Q -> 0 < n ->
  exists u l, calc_width (Scalar fs) rd n = Ok (u, l) /\
    ((u = 1 /\ l = n) \/ (1 < u /\ l = 1 - u /\ l < 0)).
Proof.
  intros Hfs Hrd Hn.
  rewrite calc_width_scalar by now apply pos_product_nonzero.
  pose proof (py_round_nonneg _ (nonneg_product _ _ _ Hfs Hrd Hn)) as Hw.
  set (w := py_round _) in *. cbv zeta. eexists _, _. split; [reflexivity|].
  destruct (Z.eqb_spec w 0) as [->|Hne]; [left; done | right; lia].
Qed.

Lemma calc_width_threshold_pair_witness :
  exists u l, calc_width (Scalar 15) (1 # 100) 10 = Ok (u, l) /\
    ((u = 1 /\ l = 10) \/ (1 < u /\ l = 1 - u /\ l < 0)).
Proof.
  apply (calc_width_threshold_pair 15 (1 # 100) 10);
    [vm_compute; discriminate | reflexivity | lia].
Defined.



Lemma calc_width_uthresh_mono (fs1 fs2 rd : Q) (n : Z) :
  (fs1 <= fs2)%Q -> (0 < rd)%Q -> 0 < n ->
  exists u1 l1 u2 l2,
    calc_width (Scalar fs1) rd n = Ok (u1, l1) /\
    calc_width (Scalar fs2) rd n = Ok (u2, l2) /\ u1 <= u2.
Proof.
  intros Hfs Hrd Hn.
  rewrite !calc_width_scalar by now apply pos_product_nonzero.
  cbv zeta. eexists _, _, _, _. split; [reflexivity|]. split; [reflexivity|].
  apply Z.add_le_mono_r, py_round_mono.
  assert (0 < inject_Z n)%Q
    by (change 0%Q with (inject_Z 0); now rewrite <- Zlt_Qlt).
  rewrite <- !Qmult_assoc. apply Qmult_le_compat_r; [done|].
  apply Qlt_le_weak. now apply Qmult_lt_0_compat.
Qed.

(** X4. The upper threshold grows with the half-width: a wider filter never
    gives a smaller [uthresh]. *)
Theorem calc_width_monotone (fs1 fs2 rd : Q) (n : Z) :
  (fs1 <= fs2)%Q -> (0 < rd)%Q -> 0 < n ->
  exists u1 l1 u2 l2,
    calc_width (Scalar fs1) rd n = Ok (u1, l1) /\
    calc_width (Scalar fs2) rd n = Ok (u2, l2) /\ u1 <= u2.
Proof. apply calc_width_uthresh_mono. Qed.

Lemma calc_width_monotone_witness :
  exists u1 l1 u2 l2,
    calc_width (Scalar 9) (1 # 100) 10 = Ok (u1, l1) /\
    calc_width (Scalar 15) (1 # 100) 10 = Ok (u2, l2) /\ u1 <= u2.
Proof.
  apply (calc_width_monotone 9 15 (1 # 100) 10);
    [vm_compute; discriminate | reflexivity | lia].
Defined.

(** X6. [wedge_width] is monotone in the baseline length and in the
    standoff, for a non-negative [horizon]: a longer baseline or a larger
    standoff never gives a smaller [uthresh]. *)
Theorem wedge_width_monotone (bl1 bl2 sdf : Q) (nchan : Z)
    (standoff1 standoff2 horizon : Q) :
  (0 <= horizon)%Q -> (bl1 <= bl2)%Q -> (standoff1 <= standoff2)%Q ->
  (0 < sdf)%Q -> 0 < nchan ->
  exists u1 l1 u2 l2,
    wedge_width bl1 sdf nchan standoff1 horizon = Ok (u1, l1) /\
    wedge_width bl2 sdf nchan standoff2 horizon = Ok (u2, l2) /\ u1 <= u2.
Proof.
  intros Hh Hbl Hs Hsdf Hn. unfold wedge_width.
  apply calc_width_uthresh_mono; [|done|done].
  apply Qplus_le_compat; [|done]. rewrite !(Qmult_comm horizon).
  now apply Qmult_le_compat_r.
Qed.

Lemma wedge_width_monotone_witness :
  exists u1 l1 u2 l2,
    wedge_width 100 (1 # 1000) 100 4 1 = Ok (u1, l1) /\
    wedge_width 100 (1 # 1000) 100 15 1 = Ok (u2, l2) /\ u1 <= u2.
Proof.
  apply (wedge_width_monotone 100 100 (1 # 1000) 100 4 15 1);
    [vm_compute; discriminate | vm_compute; discriminate
     | vm_compute; discriminate | reflexivity | lia].
Defined.

(** ** The mask [area = np.ones(nchan); area[uthresh:lthresh] = 0] *)

Lemma area_lookup (w : Z) (nchan k : nat) :
  0 <= w -> (k < nchan)%nat ->
  set_slice (w + 1) (if w =? 0 then Z.of_nat nchan else - w) 0
            (replicate nchan 1) !! k
  = Some (if (w <? Z.of_nat k) && (Z.of_nat k <? Z.of_nat nchan - w)
          then 0 else 1).
Proof.
  intros Hw Hk. unfold set_slice.
  rewrite list_lookup_imap, lookup_replicate_2 by done. simpl.
  rewrite length_replicate. f_equal.
  assert (Hstart : slice_bound (Z.of_nat nchan) (w + 1)
                   = (w + 1) `min` Z.of_nat nchan).
  { unfold slice_bound. destruct (Z.ltb_spec (w + 1) 0); [lia | done]. }
  assert (Hstop : slice_bound (Z.of_nat nchan)
                    (if w =? 0 then Z.of_nat nchan else - w)
                  = (Z.of_nat nchan - w) `max` 0).
  { unfold slice_bound. destruct (Z.eqb_spec w 0).
    - destruct (Z.ltb_spec (Z.of_nat nchan) 0); lia.
    - destruct (Z.ltb_spec (- w) 0); lia. }
  rewrite Hstart, Hstop.
  destruct (Z.leb_spec ((w + 1) `min` Z.of_nat nchan) (Z.of_nat k)),
           (Z.ltb_spec (Z.of_nat k) ((Z.of_nat nchan - w) `max` 0)),
           (Z.ltb_spec w (Z.of_nat k)),
           (Z.ltb_spec (Z.of_nat k) (Z.of_nat nchan - w));
    simpl; (reflexivity || lia).
Qed.

(** X7. The mask that the filter hands to CLEAN keeps (value 1) exactly the
    bins [k < uthresh] and [k > nchan - uthresh], and suppresses (value 0)
    the bins in between. *)
Theorem area_kept_bins (fs rd : Q) (nchan k : nat) :
  (0 <= fs)%Q -> (0 < rd)%Q -> (k < nchan)%nat ->
  exists u l,
    calc_width (Scalar fs) rd (Z.of_nat nchan) = Ok (u, l) /\
    set_slice u l 0 (replicate nchan 1) !! k
    = Some (if (u <=? Z.of_nat k) && (Z.of_nat k <=? Z.of_nat nchan - u)
            then 0 else 1).
Proof.
  intros Hfs Hrd Hk. assert (Hn : 0 < Z.of_nat nchan) by lia.
  rewrite calc_width_scalar by now apply pos_product_nonzero.
  pose proof (py_round_nonneg _ (nonneg_product _ _ _ Hfs Hrd Hn)) as Hw.
  set (w := py_round _) in *. cbv zeta. eexists _, _. split; [reflexivity|].
  rewrite area_lookup by done. f_equal.
  repeat match goal with
         | |- context [Z.ltb ?a ?b] => destruct (Z.ltb_spec a b)
         | |- context [Z.leb ?a ?b] => destruct (Z.leb_spec a b)
         end; simpl; (reflexivity || lia).
Qed.

Lemma area_kept_bins_witness :
  exists u l,
    calc_width (Scalar 15) (1 # 100) (Z.of_nat 10) = Ok (u, l) /\
    set_slice u l 0 (replicate 10 1) !! 5%nat
    = Some (if (u <=? Z.of_nat 5) && (Z.of_nat 5 <=? Z.of_nat 10 - u)
            then 0 else 1).
Proof.
  apply (area_kept_bins 15 (1 # 100) 10 5);
    [vm_compute; discriminate | reflexivity | lia].
Defined.

(** X8. The mask always keeps the zero bin, and it is symmetric about it:
    bin [k] and bin [nchan - k] are kept or suppressed together. *)
Theorem area_symmetric (fs rd : Q) (nchan k : nat) :
  (0 <= fs)%Q -> (0 < rd)%Q -> (0 < k < nchan)%nat ->
  exists u l,
    calc_width (Scalar fs) rd (Z.of_nat nchan) = Ok (u, l) /\
    set_slice u l 0 (replicate nchan 1) !! 0%nat = Some 1 /\
    set_slice u l 0 (replicate nchan 1) !! k
    = set_slice u l 0 (replicate nchan 1) !! (nchan - k)%nat.
Proof.
  intros Hfs Hrd Hk. assert (Hn : 0 < Z.of_nat nchan) by lia.
  rewrite calc_width_scalar by now apply pos_product_nonzero.
  pose proof (py_round_nonneg _ (nonneg_product _ _ _ Hfs Hrd Hn)) as Hw.
  set (w := py_round _) in *. cbv zeta. eexists _, _. split; [reflexivity|].
  rewrite !area_lookup by lia. split; f_equal;
  repeat match goal with
         | |- context [Z.ltb ?a ?b] => destruct (Z.ltb_spec a b)
         end; simpl; (reflexivity || lia).
Qed.

Lemma area_symmetric_witness :
  exists u l,
    calc_width (Scalar 15) (1 # 100) (Z.of_nat 10) = Ok (u, l) /\
    set_slice u l 0 (replicate 10 1) !! 0%nat = Some 1 /\
    set_slice u l 0 (replicate 10 1) !! 3%nat
    = set_slice u l 0 (replicate 10 1) !! (10 - 3)%nat.
Proof.
  apply (area_symmetric 15 (1 # 100) 10 3);
    [vm_compute; discriminate | reflexivity | lia].
Defined.

(** ** The metadata *)

Section Metadata.
Context `{Backend}.

Lemma row_outcome_no_res (di wi : result ndarray) (area : list Z)
    (tol skip_wgt : Q) (maxiter : Z) (gain : Q) (n : nat)
    (fl : list complex) (irow : dict) :
  row_outcome di wi area tol skip_wgt maxiter gain n = Ok (fl, irow) ->
  irow !! "res" = None.
Proof.
  unfold row_outcome. intros Hrow.
  inv_bind Hrow as w0 Hw0. inv_bind Hrow as skip Hskip. destruct skip.
  - now injection Hrow as <- <-.
  - inv_bind Hrow as di' Hdi. inv_bind Hrow as wi' Hwi.
    inv_bind Hrow as [cl inf] Hcl. inv_bind Hrow as m Hm.
    inv_bind Hrow as fl' Hfl. inv_bind Hrow as inf' Hdel.
    injection Hrow as <- <-. unfold dict_del in Hdel.
    destruct (inf !! "res"); [|discriminate].
    injection Hdel as <-. apply lookup_delete_eq.
Qed.

(** X9. The metadata that the filter returns never holds the entry ['res']:
    for 1-D input it is one dictionary without it, for 2-D input a list with
    one dictionary per row, none of which has it. *)
Theorem metadata_has_no_res (data wgts : ndarray) (filter_size : filter_arg)
    (real_delta tol : Q) (window : string) (skip_wgt : Q) (maxiter : Z)
    (gain : Q) (win_kwargs : dict) (mdl res : ndarray) (inf : info) :
  high_pass_fourier_filter data wgts filter_size real_delta tol window
                           skip_wgt maxiter gain win_kwargs = Ok (mdl, res, inf) ->
  match inf with
  | InfoDict d => ndim data = 1%nat /\ d !! "res" = None
  | InfoList l => ndim data = 2%nat /\ shape_first data = Ok (length l) /\
                  Forall (fun d => d !! "res" = None) l
  end.
Proof.
  intros Hf. unfold high_pass_fourier_filter in Hf.
  do 7 inv_bind Hf. inv_bind Hf as [u l] Hcw.
  inv_bind Hf as [d_mdl inf'] Hbr.
  inv_bind Hf as d_res Hres. injection Hf as <- <- <-.
  destruct (decide (ndim data = 1%nat)) as [Hd1|Hd1].
  - inv_bind Hbr as [cl inf0] Hcl. inv_bind Hbr as m Hm.
    inv_bind Hbr as inf1 Hdel. injection Hbr as <- <-.
    split; [done|]. unfold dict_del in Hdel.
    destruct (inf0 !! "res"); [|discriminate].
    injection Hdel as <-. apply lookup_delete_eq.
  - destruct (decide (ndim data = 2%nat)) as [Hd2|Hd2]; [|discriminate].
    inv_bind Hbr as nrows Hrows. inv_bind Hbr as [m infos] Hloop.
    injection Hbr as <- <-.
    unfold ndim, shape_first in *.
    destruct (shape data) as [|t [|n [|]]] eqn:Hs; try discriminate.
    injection Hrows as <-.
    apply (for_each_rows _ _ _ _ _ _ _ t n) in Hloop
      as (_ & _ & Hli & _ & Hout);
      [ | reflexivity | simpl; rewrite length_replicate; apply size_2d
        | reflexivity | lia ].
    simpl in Hli. split; [done|]. split; [now rewrite Hli|].
    apply Forall_lookup. intros i d Hi.
    assert (Hit : (i < t)%nat) by (apply lookup_lt_Some in Hi; lia).
    destruct (Hout i ltac:(lia)) as (fl & irow & Hrow & _ & Hirow).
    rewrite Hi in Hirow. injection Hirow as ->.
    eapply row_outcome_no_res, Hrow.
Qed.

End Metadata.

Lemma metadata_has_no_res_witness :
  exists mdl res inf,
    @high_pass_fourier_filter Reference.backend
      Reference.ones_2x4 Reference.flagged_2x4 (Scalar 0) (1 # 40)
      (1 # 1000000) "none" (1 # 2) 0 (1 # 10) ∅ = Ok (mdl, res, inf) /\
    match inf with
    | InfoDict d => ndim Reference.ones_2x4 = 1%nat /\ d !! "res" = None
    | InfoList l => ndim Reference.ones_2x4 = 2%nat /\
                    shape_first Reference.ones_2x4 = Ok (length l) /\
                    Forall (fun d => d !! "res" = None) l
    end.
Proof.
  eexists _, _, _. split; [vm_compute; reflexivity|].
  eapply (@metadata_has_no_res Reference.backend
            Reference.ones_2x4 Reference.flagged_2x4 (Scalar 0) (1 # 40)
            (1 # 1000000) "none" (1 # 2) 0 (1 # 10) ∅).
  vm_compute. reflexivity.
Defined.

(** ** Model and residual together *)

Lemma Cadd_Csub (d m : complex) : Ceq (Cadd m (Csub d m)) d.
Proof. unfold Ceq, Cadd, Csub. simpl. split; ring. Qed.

Lemma zip_with_Cadd_Csub (l k : list complex) :
  length k = length l -> Forall2 Ceq (zip_with Cadd k (zip_with Csub l k)) l.
Proof.
  revert k. induction l as [|d l IH]; intros [|m k]; simpl; try discriminate.
  - constructor.
  - intros [= Hl]. constructor; [apply Cadd_Csub | now apply IH].
Qed.

Section ModelPlusResidual.
Context `{BackendLaws}.

Lemma hpff_residual_flat (data wgts : ndarray) (filter_size : filter_arg)
    (real_delta tol : Q) (window : string) (skip_wgt : Q) (maxiter : Z)
    (gain : Q) (win_kwargs : dict) (mdl res : ndarray) (inf : info) :
  wf data -> wf wgts -> shape wgts = shape data ->
  ndim data = 1%nat \/ ndim data = 2%nat ->
  high_pass_fourier_filter data wgts filter_size real_delta tol window
                           skip_wgt maxiter gain win_kwargs = Ok (mdl, res, inf) ->
  shape mdl = shape data /\ wf mdl /\
  res = Nd (shape data) (zip_with Csub (flat data) (flat mdl)).
Proof.
  intros Hwf Hwfw Hsw Hdim Hf.
  pose proof (hpff_residual _ _ _ _ _ _ _ _ _ _ _ _ _ Hf) as Hsub.
  assert (Hm : shape mdl = shape data /\ wf mdl).
  { unfold ndim in Hdim. destruct (shape data) as [|n [|n' [|]]] eqn:Hs;
      simpl in Hdim; try (destruct Hdim; discriminate).
    - exact (hpff_1d_model data wgts filter_size real_delta tol window
               skip_wgt maxiter gain win_kwargs n mdl res inf
               Hs Hwf Hsw Hwfw Hf).
    - destruct (hpff_2d_inv _ _ _ _ _ _ _ _ _ _ _ _ _ _ _ Hs Hwf Hf)
        as (_ & _ & _ & _ & _ & _ & _ & _ & _ & _ & _ & _ & _ & _ & _ & _ &
            _ & _ & Hsm & Hlm & _).
      split; [done|]. unfold wf. now rewrite Hsm, size_2d. }
  destruct Hm as [Hsm Hwfm]. split; [exact Hsm|]. split; [exact Hwfm|].
  unfold nd_sub in Hsub.
  rewrite broadcast2_same_shape in Hsub by done. now injection Hsub.
Qed.

(** X10. Model and residual add up to the data: for valid 1-D or 2-D input,
    [mdl + res] is the data, sample by sample (in exact arithmetic). *)
Theorem model_plus_residual_is_data (data wgts : ndarray)
    (filter_size : filter_arg) (real_delta tol : Q) (window : string)
    (skip_wgt : Q) (maxiter : Z) (gain : Q) (win_kwargs : dict)
    (mdl res : ndarray) (inf : info) :
  wf data -> wf wgts -> shape wgts = shape data ->
  ndim data = 1%nat \/ ndim data = 2%nat ->
  high_pass_fourier_filter data wgts filter_size real_delta tol window
                           skip_wgt maxiter gain win_kwargs = Ok (mdl, res, inf) ->
  shape res = shape mdl /\
  Forall2 Ceq (zip_with Cadd (flat mdl) (flat res)) (flat data).
Proof.
  intros Hwf Hwfw Hsw Hdim Hf.
  destruct (hpff_residual_flat _ _ _ _ _ _ _ _ _ _ _ _ _ Hwf Hwfw Hsw Hdim Hf)
    as (Hsm & Hwfm & ->).
  split; [now rewrite Hsm|]. simpl. apply zip_with_Cadd_Csub.
  unfold wf in *. congruence.
Qed.

End ModelPlusResidual.

Lemma model_plus_residual_is_data_witness :
  exists mdl res inf,
    @high_pass_fourier_filter Reference.backend
      Reference.ramp_3x4 Reference.flagged_3x4 (Scalar 0) (1 # 40)
      (1 # 1000000) "none" (1 # 2) 0 (1 # 10) ∅ = Ok (mdl, res, inf) /\
    shape res = shape mdl /\
    Forall2 Ceq (zip_with Cadd (flat mdl) (flat res)) (flat Reference.ramp_3x4).
Proof.
  eexists _, _, _. split; [vm_compute; reflexivity|].
  eapply (@model_plus_residual_is_data Reference.backend reference_backend_laws
            Reference.ramp_3x4 Reference.flagged_3x4 (Scalar 0) (1 # 40)
            (1 # 1000000) "none" (1 # 2) 0 (1 # 10) ∅);
    [reflexivity | reflexivity | reflexivity | right; reflexivity
     | vm_compute; reflexivity].
Defined.

(** ** Input whose rows are all skipped *)

Lemma sublist_alter_replicate (x : complex) (i n m : nat) :
  (i + n <= m)%nat ->
  sublist_alter (fun _ => replicate n x) i n (replicate m x) = replicate m x.
Proof.
  intros Hle. unfold sublist_alter.
  rewrite take_replicate, drop_replicate, <- !replicate_add. f_equal. lia.
Qed.

Lemma setitem0_zeros (t n i : nat) :
  (i < t)%nat -> setitem0 (zeros [t; n]) i (scalar C0) = Ok (zeros [t; n]).
Proof.
  intros Hi. unfold setitem0, zeros. cbn [shape flat].
  rewrite decide_True by done.
  rewrite broadcast_to_zero. cbv zeta. f_equal. f_equal.
  replace (size [n]) with n by (unfold size; simpl; lia).
  apply sublist_alter_replicate. rewrite size_2d. nia.
Qed.

Section AllSkipped.
Context `{BackendLaws}.

Lemma for_each_all_skipped (_d _w : ndarray) (area : list Z)
    (tol skip_wgt : Q) (maxiter : Z) (gain : Q) (t n cnt : nat) :
  forall (k : nat) (infos : list dict),
  (k + cnt <= t)%nat ->
  (forall i, (k <= i < k + cnt)%nat ->
     (index2 _w i 0 ≫= fun w0 => lt_scalar w0 skip_wgt) = Ok true) ->
  for_each (filter_row _d _w area tol skip_wgt maxiter gain) (seq k cnt)
           (zeros [t; n], infos)
  = Ok (zeros [t; n], infos ++ replicate cnt {[ "skipped" := PyBool true ]}).
Proof.
  induction cnt as [|cnt IH]; intros k infos Hle Hlow.
  - simpl. now rewrite app_nil_r.
  - change (seq k (S cnt)) with (k :: seq (S k) cnt). cbn [for_each].
    assert (Hrow : filter_row _d _w area tol skip_wgt maxiter gain k
                     (zeros [t; n], infos)
                   = Ok (zeros [t; n],
                         infos ++ [{[ "skipped" := PyBool true ]}])).
    { unfold filter_row. specialize (Hlow k ltac:(lia)).
      destruct (index2 _w k 0) as [w0|e]; [|discriminate]. simpl in *.
      rewrite Hlow. simpl. rewrite setitem0_zeros by lia. reflexivity. }
    rewrite Hrow. simpl. rewrite IH by (try lia; intros; apply Hlow; lia).
    now rewrite <- app_assoc.
Qed.

(** X11. When every row of valid 2-D input is below [skip_wgt], the filter
    returns without calling CLEAN: the model is all zeros, the residual is
    the data, and every metadata entry is [{'skipped': True}]; in
    particular input without rows gives empty results. *)
Theorem all_rows_skipped (data wgts : ndarray) (filter_size real_delta tol : Q)
    (window : string) (skip_wgt : Q) (maxiter : Z) (gain : Q)
    (win_kwargs : dict) (t n : nat) (win : ndarray) :
  shape data = [t; n] -> wf data -> shape wgts = [t; n] -> wf wgts ->
  gen_window n window win_kwargs = Ok win ->
  ~ (real_delta * inject_Z (Z.of_nat n) == 0)%Q ->
  (forall i, (i < t)%nat ->
     low_weight wgts n window win_kwargs skip_wgt i = Ok true) ->
  high_pass_fourier_filter data wgts (Scalar filter_size) real_delta tol
    window skip_wgt maxiter gain win_kwargs
  = Ok (zeros [t; n], data,
        InfoList (replicate t {[ "skipped" := PyBool true ]})).
Proof.
  intros Hs Hwf Hsw Hwfw Hwin Hnz Hlow.
  assert (Hn : (0 < n)%nat).
  { destruct n; [|lia]. exfalso. apply Hnz. simpl. ring. }
  pose proof (gen_window_like _ _ _ _ Hwin) as [Hwfwin Hswin].
  assert (Hdw : nd_mul data wgts
                = Ok (Nd [t; n] (zip_with Cmul (flat data) (flat wgts)))).
  { unfold nd_mul. rewrite broadcast2_same_shape by (done || congruence).
    now rewrite Hs. }
  set (dw := Nd [t; n] (zip_with Cmul (flat data) (flat wgts))) in *.
  assert (Hwfdw : wf dw).
  { unfold wf, dw. cbn [shape flat].
    rewrite length_zip_with, Hwf, Hwfw, Hs, Hsw. lia. }
  pose proof (nd_mul_window dw win t n Hwfdw (or_intror eq_refl) Hswin) as Hdww.
  pose proof (nd_mul_window wgts win t n Hwfw (or_intror Hsw) Hswin) as Hww.
  cbn [shape flat dw] in Hdww. rewrite Hsw in Hww.
  assert (Hlow' : forall i, (0 <= i < 0 + t)%nat ->
            (index2 (Nd [t; n] (mjoin (ifft <$> reshape (replicate t n)
                       (zip_with Cmul (flat wgts) (gather win [t; n])))))
                    i 0 ≫= fun w0 => lt_scalar w0 skip_wgt) = Ok true).
  { intros i Hi. specialize (Hlow i ltac:(lia)).
    unfold low_weight, weight_spectrum in Hlow.
    rewrite Hwin in Hlow. simpl in Hlow. rewrite Hww in Hlow. simpl in Hlow.
    rewrite lastaxis_2d_ok in Hlow by done. exact Hlow. }
  unfold high_pass_fourier_filter, shape_last, shape_first, ndim.
  rewrite Hs. simpl. rewrite Hwin. simpl. rewrite Hdw. simpl.
  fold dw. rewrite Hdww. simpl.
  rewrite lastaxis_2d_ok by done. simpl.
  rewrite Hww. simpl. rewrite lastaxis_2d_ok by done. simpl.
  rewrite calc_width_scalar by done. simpl.
  rewrite (for_each_all_skipped _ _ _ _ _ _ _ t n t 0 []) by (done || lia).
  simpl. unfold nd_sub.
  rewrite broadcast2_same_shape;
    [ | done | unfold wf, zeros; simpl; now rewrite length_replicate | done ].
  do 3 f_equal. unfold zeros. simpl flat.
  rewrite zip_with_Csub_zeros by (now rewrite Hwf, Hs).
  destruct data as [sd fd]. simpl in *. now subst sd.
Qed.

End AllSkipped.

Lemma all_rows_skipped_witness :
  @high_pass_fourier_filter Reference.backend
    Reference.ones_2x4 (zeros [2; 4]%nat) (Scalar 0) (1 # 40)
    (1 # 1000000) "none" (1 # 2) 0 (1 # 10) ∅
  = Ok (zeros [2; 4]%nat, Reference.ones_2x4,
        InfoList (replicate 2 {[ "skipped" := PyBool true ]})).
Proof.
  apply (@all_rows_skipped Reference.backend reference_backend_laws
           Reference.ones_2x4 (zeros [2; 4]%nat) 0 (1 # 40)
           (1 # 1000000) "none" (1 # 2) 0 (1 # 10) ∅ 2 4 (scalar C1));
    [reflexivity | reflexivity | reflexivity | reflexivity | reflexivity
     | vm_compute; lia | ].
  intros [|[|i]] Hi; [vm_compute; reflexivity | vm_compute; reflexivity | lia].
Defined.

(** ** Data without channels *)

Lemma bshape_last_zero (s1 s2 r : list nat) :
  bshape s1 s2 = Some r -> last s1 = Some 0%nat -> last r = Some 0%nat.
Proof.
  revert s2 r. induction s1 as [|d1 s1 IH]; intros [|d2 s2] r; simpl;
    try discriminate.
  destruct (bshape s1 s2) as [r'|] eqn:E; [|discriminate]. simpl.
  intros Hr Hlast.
  assert (Hr' : exists d, r = d :: r' /\ (s1 = [] -> d1 = 0%nat -> d = 0%nat)).
  { repeat case_decide; simplify_eq; eexists; (split; [reflexivity|]);
      intros; subst; (reflexivity || lia). }
  destruct Hr' as (d & -> & Hd).
  destruct s1 as [|d1' s1'].
  - destruct s2; [|discriminate]. injection E as <-.
    injection Hlast as ->. now rewrite Hd.
  - rewrite last_cons_cons in Hlast. specialize (IH _ _ E Hlast).
    destruct r' as [|x r']; [discriminate|]. now rewrite last_cons_cons.
Qed.

Lemma last_pad (n : nat) (s : list nat) (d : nat) :
  last s = Some d -> last (pad n s) = Some d.
Proof. intros Hl. unfold pad. rewrite last_app, Hl. reflexivity. Qed.

Lemma broadcast2_last_zero (f : complex -> complex -> complex)
    (a b c : ndarray) :
  broadcast2 f a b = Ok c -> last (shape a) = Some 0%nat ->
  last (shape c) = Some 0%nat.
Proof.
  unfold broadcast2, broadcast_shapes.
  destruct (bshape _ _) as [s|] eqn:E; [|discriminate]. intros [= <-] Hl.
  simpl. eapply bshape_last_zero; [exact E|]. now apply last_pad.
Qed.

Section NoChannels.
Context `{Backend}.

(** X12. Data whose last axis is empty is refused with [ValueError] once
    the window is generated, whatever the weights and the other arguments
    are: the inverse transform has no points to work on. *)
Theorem no_channels_raises_value_error (data wgts : ndarray)
    (filter_size : filter_arg) (real_delta tol : Q) (window : string)
    (skip_wgt : Q) (maxiter : Z) (gain : Q) (win_kwargs : dict)
    (win : ndarray) :
  shape_last data = Ok 0%nat ->
  gen_window 0 window win_kwargs = Ok win ->
  high_pass_fourier_filter data wgts filter_size real_delta tol window
                           skip_wgt maxiter gain win_kwargs = Raise ValueError.
Proof.
  intros Hlast Hwin. unfold high_pass_fourier_filter.
  rewrite Hlast. simpl. rewrite Hwin. simpl.
  unfold shape_last in Hlast.
  destruct (last (shape data)) as [d|] eqn:El; [|discriminate].
  injection Hlast as ->.
  destruct (nd_mul data wgts) as [dw|e] eqn:Hdw;
    [| apply broadcast2_raise in Hdw as ->; reflexivity].
  simpl. apply broadcast2_last_zero in Hdw; [|exact El].
  destruct (nd_mul dw win) as [dww|e] eqn:Hdww;
    [| apply broadcast2_raise in Hdww as ->; reflexivity].
  simpl. apply broadcast2_last_zero in Hdww; [|exact Hdw].
  unfold lastaxis. now rewrite Hdww.
Qed.

End NoChannels.

Lemma no_channels_raises_value_error_witness :
  @high_pass_fourier_filter Reference.backend
    (Nd [3; 0]%nat []) (Nd [3; 0]%nat []) (Scalar 1) (1 # 40)
    (1 # 1000000) "none" (1 # 2) 0 (1 # 10) ∅ = Raise ValueError.
Proof.
  apply (@no_channels_raises_value_error Reference.backend
           (Nd [3; 0]%nat []) (Nd [3; 0]%nat []) (Scalar 1) (1 # 40)
           (1 # 1000000) "none" (1 # 2) 0 (1 # 10) ∅ (scalar C1));
    reflexivity.
Defined.

(** ** The minimum delay *)

Lemma Qmax_left (a b : Q) : (b <= a)%Q -> Qmax a b = a.
Proof.
  intros Hle. unfold Qmax, GenericMinMax.gmax.
  destruct (a ?= b)%Q eqn:E; try reflexivity.
  apply Qlt_alt in E. now apply Qlt_not_le in E.
Qed.

Section MinimumDelay.
Context `{Backend}.

(** X13. A minimum delay that does not exceed the baseline delay
    [horizon * bl_len + standoff] has no effect: [delay_filter] returns the
    same result for every such [min_dly]. *)
Theorem delay_filter_min_dly_unused (data wgts : ndarray) (bl_len sdf : Q)
    (standoff horizon min_dly min_dly' : Q) (tol : Q) (window : string)
    (skip_wgt : Q) (maxiter : Z) (gain : Q) (win_kwargs : dict) :
  (min_dly <= horizon * bl_len + standoff)%Q ->
  (min_dly' <= horizon * bl_len + standoff)%Q ->
  delay_filter data wgts bl_len sdf standoff horizon min_dly tol window
               skip_wgt maxiter gain win_kwargs =
  delay_filter data wgts bl_len sdf standoff horizon min_dly' tol window
               skip_wgt maxiter gain win_kwargs.
Proof.
  intros H1 H2. unfold delay_filter.
  now rewrite !np_max_pair, !Qmax_left.
Qed.

End MinimumDelay.

Lemma delay_filter_min_dly_unused_witness :
  @delay_filter Reference.backend Reference.ones_2x4 Reference.flagged_2x4
    100 (1 # 40) 5 1 0 (1 # 10000) "none" (1 # 2) 0 (1 # 10) ∅ =
  @delay_filter Reference.backend Reference.ones_2x4 Reference.flagged_2x4
    100 (1 # 40) 5 1 50 (1 # 10000) "none" (1 # 2) 0 (1 # 10) ∅.
Proof.
  apply (@delay_filter_min_dly_unused Reference.backend
           Reference.ones_2x4 Reference.flagged_2x4
           100 (1 # 40) 5 1 0 50 (1 # 10000) "none" (1 # 2) 0 (1 # 10) ∅);
    vm_compute; discriminate.
Defined.

(** ** Raising the skipping threshold *)

Lemma Clt_mono (z : complex) (s s' : Q) :
  (s <= s')%Q -> Clt z s = true -> Clt z s' = true.
Proof.
  intros Hs. unfold Clt.
  destruct (re z ?= s)%Q eqn:E, (re z ?= s')%Q eqn:E'; try done;
    first [apply Qeq_alt in E | apply Qlt_alt in E | apply Qgt_alt in E];
    first [apply Qeq_alt in E' | apply Qlt_alt in E' | apply Qgt_alt in E'];
    intros _; exfalso; lra.
Qed.

Section SkipThreshold.
Context `{Backend}.

Lemma low_weight_mono (wgts : ndarray) (n : nat) (window : string)
    (win_kwargs : dict) (s s' : Q) (i : nat) :
  (s <= s')%Q ->
  low_weight wgts n window win_kwargs s i = Ok true ->
  low_weight wgts n window win_kwargs s' i = Ok true.
Proof.
  intros Hs. unfold low_weight. intros Hlow.
  inv_bind Hlow as _w Hw. rewrite Hw. simpl.
  inv_bind Hlow as w0 Hw0. rewrite Hw0. simpl.
  unfold lt_scalar in *. destruct (flat w0) as [|z [|]]; try discriminate.
  injection Hlow as Hlt. now rewrite (Clt_mono z s s').
Qed.

Lemma low_weight_row_zero (data wgts : ndarray)
    (filter_size : filter_arg) (real_delta tol : Q) (window : string)
    (skip_wgt : Q) (maxiter : Z) (gain : Q) (win_kwargs : dict)
    (t n i : nat) (mdl res : ndarray) (inf : info) :
  shape data = [t; n] -> wf data -> (i < t)%nat ->
  high_pass_fourier_filter data wgts filter_size real_delta tol window
                           skip_wgt maxiter gain win_kwargs = Ok (mdl, res, inf) ->
  low_weight wgts n window win_kwargs skip_wgt i = Ok true ->
  index0 mdl i = Ok (zeros [n]) /\
  exists infos, inf = InfoList infos /\
                infos !! i = Some {[ "skipped" := PyBool true ]}.
Proof.
  intros Hs Hwf Hi Hf Hlow.
  destruct (hpff_2d_inv _ _ _ _ _ _ _ _ _ _ _ _ _ _ _ Hs Hwf Hf)
    as (win & dw & dww & _d & ww & _w & u & l & infos & Hwin & _ & _ & _ &
        Hww & Hw & _ & -> & _ & Hsm & Hlm & -> & Hrows).
  destruct (Hrows i Hi) as (fl & irow & Hout & Hfl & Hirow).
  unfold low_weight, weight_spectrum in Hlow.
  rewrite Hwin in Hlow. simpl in Hlow. rewrite Hww in Hlow. simpl in Hlow.
  rewrite Hw in Hlow. simpl in Hlow.
  inv_bind Hlow as w0 Hw0. unfold index2 in Hw0.
  unfold row_outcome in Hout. rewrite Hw0 in Hout. simpl in Hout.
  rewrite Hlow in Hout. simpl in Hout. injection Hout as <- <-.
  split; [|eauto].
  rewrite (index0_array_2d mdl t n i) by done. now rewrite Hfl, zeros_1d.
Qed.

(** X15. Raising [skip_wgt] never brings a row back: a row whose first
    reciprocal bin is below [skip_wgt] is left out of every call with a
    threshold at least as large, which gives it a zero model row and the
    metadata [{'skipped': True}]. *)
Theorem larger_skip_wgt_still_skips (data wgts : ndarray)
    (filter_size : filter_arg) (real_delta tol : Q) (window : string)
    (skip_wgt skip_wgt' : Q) (maxiter : Z) (gain : Q) (win_kwargs : dict)
    (t n i : nat) (mdl res : ndarray) (inf : info) :
  shape data = [t; n] -> wf data -> (i < t)%nat ->
  (skip_wgt <= skip_wgt')%Q ->
  low_weight wgts n window win_kwargs skip_wgt i = Ok true ->
  high_pass_fourier_filter data wgts filter_size real_delta tol window
                           skip_wgt' maxiter gain win_kwargs
    = Ok (mdl, res, inf) ->
  index0 mdl i = Ok (zeros [n]) /\
  exists infos, inf = InfoList infos /\
                infos !! i = Some {[ "skipped" := PyBool true ]}.
Proof.
  intros Hs Hwf Hi Hle Hlow Hf.
  eapply low_weight_row_zero; eauto using low_weight_mono.
Qed.

End SkipThreshold.

Lemma larger_skip_wgt_still_skips_witness :
  exists mdl res inf,
    @high_pass_fourier_filter Reference.backend
      Reference.ones_2x4 Reference.flagged_2x4 (Scalar 0) (1 # 40)
      (1 # 1000000) "none" (3 # 4) 0 (1 # 10) ∅ = Ok (mdl, res, inf) /\
    index0 mdl 0 = Ok (zeros [4%nat]) /\
    exists infos, inf = InfoList infos /\
                  infos !! 0%nat = Some {[ "skipped" := PyBool true ]}.
Proof.
  eexists _, _, _. split; [vm_compute; reflexivity|].
  eapply (@larger_skip_wgt_still_skips Reference.backend
            Reference.ones_2x4 Reference.flagged_2x4 (Scalar 0) (1 # 40)
            (1 # 1000000) "none" (1 # 2) (3 # 4) 0 (1 # 10) ∅ 2 4 0);
    [reflexivity | reflexivity | lia | vm_compute; discriminate
     | vm_compute; reflexivity | vm_compute; reflexivity].
Defined.

(** ** The two extremes of the mask *)



(** X17. A half-width that reaches the middle of the array suppresses
    nothing: when [2 * uthresh - 1 >= nchan] the slice [uthresh:lthresh] is
    empty and the mask is all ones. *)
Theorem area_all_kept (fs rd : Q) (nchan : nat) (u l : Z) :
  (0 <= fs)%Q -> (0 < rd)%Q -> (0 < nchan)%nat ->
  calc_width (Scalar fs) rd (Z.of_nat nchan) = Ok (u, l) ->
  Z.of_nat nchan <= 2 * u - 1 ->
  set_slice u l 0 (replicate nchan 1) = replicate nchan 1.
Proof.
  intros Hfs Hrd Hnc Hcw Hwide. assert (Hn : 0 < Z.of_nat nchan) by lia.
  rewrite calc_width_scalar in Hcw by now apply pos_product_nonzero.
  pose proof (py_round_nonneg _ (nonneg_product _ _ _ Hfs Hrd Hn)) as Hw.
  set (w := py_round _) in *. cbv zeta in Hcw. injection Hcw as <- <-.
  apply list_eq. intros k.
  destruct (decide (k < nchan)%nat) as [Hk|Hk].
  - rewrite area_lookup, lookup_replicate_2 by done. f_equal.
    destruct (Z.ltb_spec w (Z.of_nat k)),
             (Z.ltb_spec (Z.of_nat k) (Z.of_nat nchan - w));
      simpl; (reflexivity || lia).
  - rewrite !lookup_ge_None_2; [reflexivity | |].
    + rewrite length_replicate. lia.
    + unfold set_slice. rewrite length_imap, length_replicate. lia.
Qed.

Lemma area_all_kept_witness :
  set_slice 6 (-5) 0 (replicate 10 1) = replicate 10 1.
Proof.
  apply (area_all_kept 50 (1 # 100) 10 6 (-5));
    [vm_compute; discriminate | reflexivity | lia | reflexivity | lia].
Defined.
